(** * alaz: the userspace L7 ingestion core (ebpf/l7_req/main.go)

    A shallow embedding of the enum decoders, the L7 event pump, the log
    pump with its message parser, and the attach/teardown sequence of
    [DeployAndWait], together with the properties checked against them.

    Conventions.  Go's unsigned integers are [Z]; narrowing conversions
    write their wrap-around out.  A [[]byte] is a [list byte], a Go
    [string] is a [string].  The host logger is a list of entries in the
    order they were emitted. *)

From Stdlib Require Import ZArith List Bool Lia.
From Stdlib Require Import Strings.String Strings.Byte.
Import ListNotations.

Local Open Scope string_scope.
Local Open Scope list_scope.
Local Open Scope Z_scope.

(* ================================================================= *)
(** ** Enumerations *)

(** match with values in l7_req.c *)
Definition BPF_L7_PROTOCOL_UNKNOWN : Z := 0.
Definition BPF_L7_PROTOCOL_HTTP : Z := 1.
Definition BPF_L7_PROTOCOL_AMQP : Z := 2.
Definition BPF_L7_PROTOCOL_POSTGRES : Z := 3.

(** for user space *)
Definition L7_PROTOCOL_HTTP : string := "HTTP".
Definition L7_PROTOCOL_AMQP : string := "AMQP".
Definition L7_PROTOCOL_POSTGRES : string := "POSTGRES".
Definition L7_PROTOCOL_UNKNOWN : string := "UNKNOWN".

(** [func (e L7ProtocolConversion) String() string]: the switch tries its
    cases in order and falls to [default]. *)
Definition L7ProtocolConversion_String (e : Z) : string :=
  if e =? BPF_L7_PROTOCOL_HTTP then L7_PROTOCOL_HTTP
  else if e =? BPF_L7_PROTOCOL_AMQP then L7_PROTOCOL_AMQP
  else if e =? BPF_L7_PROTOCOL_POSTGRES then L7_PROTOCOL_POSTGRES
  else if e =? BPF_L7_PROTOCOL_UNKNOWN then L7_PROTOCOL_UNKNOWN
  else "Unknown".

Definition BPF_METHOD_UNKNOWN : Z := 0.
Definition BPF_METHOD_GET : Z := 1.
Definition BPF_METHOD_POST : Z := 2.
Definition BPF_METHOD_PUT : Z := 3.
Definition BPF_METHOD_PATCH : Z := 4.
Definition BPF_METHOD_DELETE : Z := 5.
Definition BPF_METHOD_HEAD : Z := 6.
Definition BPF_METHOD_CONNECT : Z := 7.
Definition BPF_METHOD_OPTIONS : Z := 8.
Definition BPF_METHOD_TRACE : Z := 9.

Definition BPF_AMQP_METHOD_UNKNOWN : Z := 0.
Definition BPF_AMQP_METHOD_PUBLISH : Z := 1.
Definition BPF_AMQP_METHOD_DELIVER : Z := 2.

Definition BPF_POSTGRES_METHOD_UNKNOWN : Z := 0.
Definition BPF_POSTGRES_METHOD_STATEMENT_CLOSE_OR_CONN_TERMINATE : Z := 1.
Definition BPF_POSTGRES_METHOD_SIMPLE_QUERY : Z := 2.

(** for http, user space *)
Definition GET : string := "GET".
Definition POST : string := "POST".
Definition PUT : string := "PUT".
Definition PATCH : string := "PATCH".
Definition DELETE : string := "DELETE".
Definition HEAD : string := "HEAD".
Definition CONNECT : string := "CONNECT".
Definition OPTIONS : string := "OPTIONS".
Definition TRACE : string := "TRACE".

(** for rabbitmq, user space *)
Definition PUBLISH : string := "PUBLISH".
Definition DELIVER : string := "DELIVER".

(** for postgres, user space *)
Definition CLOSE_OR_TERMINATE : string := "CLOSE_OR_TERMINATE".
Definition SIMPLE_QUERY : string := "SIMPLE_QUERY".

Definition HTTPMethodConversion_String (e : Z) : string :=
  if e =? BPF_METHOD_GET then GET
  else if e =? BPF_METHOD_POST then POST
  else if e =? BPF_METHOD_PUT then PUT
  else if e =? BPF_METHOD_PATCH then PATCH
  else if e =? BPF_METHOD_DELETE then DELETE
  else if e =? BPF_METHOD_HEAD then HEAD
  else if e =? BPF_METHOD_CONNECT then CONNECT
  else if e =? BPF_METHOD_OPTIONS then OPTIONS
  else if e =? BPF_METHOD_TRACE then TRACE
  else "Unknown".

Definition RabbitMQMethodConversion_String (e : Z) : string :=
  if e =? BPF_AMQP_METHOD_PUBLISH then PUBLISH
  else if e =? BPF_AMQP_METHOD_DELIVER then DELIVER
  else "Unknown".

Definition PostgresMethodConversion_String (e : Z) : string :=
  if e =? BPF_POSTGRES_METHOD_STATEMENT_CLOSE_OR_CONN_TERMINATE
  then CLOSE_OR_TERMINATE
  else if e =? BPF_POSTGRES_METHOD_SIMPLE_QUERY then SIMPLE_QUERY
  else "Unknown".

(** The case arms of each switch, as (discriminant, string) tables, and
    the lookup of a string in such a table. *)
Definition protocol_table : list (Z * string) :=
  [ (BPF_L7_PROTOCOL_HTTP, L7_PROTOCOL_HTTP);
    (BPF_L7_PROTOCOL_AMQP, L7_PROTOCOL_AMQP);
    (BPF_L7_PROTOCOL_POSTGRES, L7_PROTOCOL_POSTGRES);
    (BPF_L7_PROTOCOL_UNKNOWN, L7_PROTOCOL_UNKNOWN) ].

Definition http_table : list (Z * string) :=
  [ (BPF_METHOD_GET, GET); (BPF_METHOD_POST, POST); (BPF_METHOD_PUT, PUT);
    (BPF_METHOD_PATCH, PATCH); (BPF_METHOD_DELETE, DELETE);
    (BPF_METHOD_HEAD, HEAD); (BPF_METHOD_CONNECT, CONNECT);
    (BPF_METHOD_OPTIONS, OPTIONS); (BPF_METHOD_TRACE, TRACE) ].

Definition amqp_table : list (Z * string) :=
  [ (BPF_AMQP_METHOD_PUBLISH, PUBLISH); (BPF_AMQP_METHOD_DELIVER, DELIVER) ].

Definition postgres_table : list (Z * string) :=
  [ (BPF_POSTGRES_METHOD_STATEMENT_CLOSE_OR_CONN_TERMINATE, CLOSE_OR_TERMINATE);
    (BPF_POSTGRES_METHOD_SIMPLE_QUERY, SIMPLE_QUERY) ].

Fixpoint lookup_string (t : list (Z * string)) (s : string) : option Z :=
  match t with
  | [] => None
  | (k, v) :: t' => if String.eqb v s then Some k else lookup_string t' s
  end.

Definition in_range (t : list (Z * string)) (e : Z) : bool :=
  existsb (fun kv => e =? fst kv) t.

(** The string a table gives to a discriminant: its entry, else "Unknown". *)
Definition string_of_table (t : list (Z * string)) (e : Z) : string :=
  match find (fun kv => e =? fst kv) t with
  | Some kv => snd kv
  | None => "Unknown"
  end.

(** 0 is false, 1 is true *)
Definition uint8ToBool (num : Z) : bool := negb (num =? 0).

(** Go's [uint16(x)] on a wider unsigned value keeps the low 16 bits. *)
Definition uint16 (x : Z) : Z := x mod 2 ^ 16.

(* ================================================================= *)
(** ** Records *)

(** Modelled from the spec: the struct [bpfL7Event] is generated by bpf2go
    and is not part of the source at hand; its fields are those of the raw
    L7 event of the data model, in declaration order. *)
Module bpfL7Event.
Record t : Type := mk {
    Fd : Z;                     (* uint64 *)
    WriteTimeNs : Z;            (* uint64 *)
    Pid : Z;                    (* uint32 *)
    Status : Z;                 (* uint32 *)
    Duration : Z;               (* uint64 *)
    Protocol : Z;               (* uint32 *)
    Method : Z;                 (* uint32 *)
    Payload : list byte;        (* [512]uint8 *)
    PayloadSize : Z;            (* uint32 *)
    PayloadReadComplete : Z;    (* uint8 *)
    Failed : Z;                 (* uint8 *)
    IsTls : Z                   (* uint8 *)
}.
End bpfL7Event.

(** for user space *)
Module L7Event.
Record t : Type := mk {
    Fd : Z;
    Pid : Z;
    Status : Z;
    Duration : Z;
    Protocol : string;
    Tls : bool;
    Method : string;
    Payload : list byte;
    PayloadSize : Z;
    PayloadReadComplete : bool;
    Failed : bool;
    WriteTimeNs : Z
}.
End L7Event.

(** A [perf.Record] whose [RawSample] has already been viewed as the struct
    the pump casts it to; [None] stands for a nil or empty sample. *)
Record perfRecord (T : Type) : Type := mkRecord {
  RawSample : option T;
  LostSamples : Z
}.
Arguments mkRecord {T} _ _.
Arguments RawSample {T} _.
Arguments LostSamples {T} _.

(* ================================================================= *)
(** ** The host logger and the downstream channel *)

Inductive Level : Type := DebugLevel | InfoLevel | WarnLevel | ErrorLevel | FatalLevel.

Inductive Field : Type :=
| Str (key val : string)
| Uint16 (key : string) (val : Z)
| Uint32 (key : string) (val : Z)
| Uint64 (key : string) (val : Z)
| Err.

Inductive FmtArg : Type :=
| ArgStr (s : string)
| ArgInt (n : Z).

(** The closing call of a log chain: [Msg(text)] or [Msgf(format, args)]. *)
Inductive Message : Type :=
| Msg (text : string)
| Msgf (format : string) (args : list FmtArg).

Record Entry : Type := mkEntry {
  level : Level;
  fields : list Field;
  message : Message
}.

Record Host : Type := mkHost {
  host_log : list Entry;        (* entries given to log.Logger, oldest first *)
  ch : list L7Event.t           (* events sent on [ch], oldest first *)
}.

(** The value of the first field of an entry written under a key. *)
Fixpoint str_field (key : string) (fs : list Field) : option string :=
  match fs with
  | [] => None
  | Str k v :: fs' => if String.eqb k key then Some v else str_field key fs'
  | _ :: fs' => str_field key fs'
  end.

Fixpoint uint16_field (key : string) (fs : list Field) : option Z :=
  match fs with
  | [] => None
  | Uint16 k v :: fs' => if String.eqb k key then Some v else uint16_field key fs'
  | _ :: fs' => uint16_field key fs'
  end.

Definition emit (e : Entry) (h : Host) : Host :=
  mkHost (host_log h ++ [e]) (ch h).

Definition send (ev : L7Event.t) (h : Host) : Host :=
  mkHost (host_log h) (ch h ++ [ev]).

Definition when (b : bool) (f : Host -> Host) (h : Host) : Host :=
  if b then f h else h.

(* ================================================================= *)
(** ** The L7 event pump *)

(** The body of the per-event goroutine: resolve protocol and method. *)
Definition decode_protocol (l7Event : bpfL7Event.t) : string :=
  L7ProtocolConversion_String (bpfL7Event.Protocol l7Event).

Definition decode_method (l7Event : bpfL7Event.t) : string :=
  let protocol := decode_protocol l7Event in
  if String.eqb protocol L7_PROTOCOL_HTTP
  then HTTPMethodConversion_String (bpfL7Event.Method l7Event)
  else if String.eqb protocol L7_PROTOCOL_AMQP
  then RabbitMQMethodConversion_String (bpfL7Event.Method l7Event)
  else if String.eqb protocol L7_PROTOCOL_POSTGRES
  then PostgresMethodConversion_String (bpfL7Event.Method l7Event)
  else "Unknown".

Definition decode_l7 (l7Event : bpfL7Event.t) : L7Event.t :=
  {| L7Event.Fd := bpfL7Event.Fd l7Event;
     L7Event.Pid := bpfL7Event.Pid l7Event;
     L7Event.Status := bpfL7Event.Status l7Event;
     L7Event.Duration := bpfL7Event.Duration l7Event;
     L7Event.Protocol := decode_protocol l7Event;
     L7Event.Tls := uint8ToBool (bpfL7Event.IsTls l7Event);
     L7Event.Method := decode_method l7Event;
     L7Event.Payload := bpfL7Event.Payload l7Event;
     L7Event.PayloadSize := bpfL7Event.PayloadSize l7Event;
     L7Event.PayloadReadComplete :=
       uint8ToBool (bpfL7Event.PayloadReadComplete l7Event);
     L7Event.Failed := uint8ToBool (bpfL7Event.Failed l7Event);
     L7Event.WriteTimeNs := bpfL7Event.WriteTimeNs l7Event |}.

(** The debug entry written for a TLS record. *)
Definition l7tls_entry (l7Event : bpfL7Event.t) : Entry :=
  mkEntry DebugLevel
    [ Uint16 "fd" (uint16 (bpfL7Event.Fd l7Event));
      Uint32 "pid" (bpfL7Event.Pid l7Event);
      Str "payload" (string_of_list_byte (bpfL7Event.Payload l7Event));
      Str "method" (decode_method l7Event);
      Str "protocol" (decode_protocol l7Event);
      Uint32 "status" (bpfL7Event.Status l7Event) ]
    (Msg "l7tls event").

Definition l7_handle (l7Event : bpfL7Event.t) (h : Host) : Host :=
  let h := when (uint8ToBool (bpfL7Event.IsTls l7Event))
                (emit (l7tls_entry l7Event)) h in
  send (decode_l7 l7Event) h.

(** One iteration of the L7 pump: [err] tells whether [l7Events.Read]
    returned an error. *)
Definition l7_read (err : bool) (record : perfRecord bpfL7Event.t) (h : Host) : Host :=
  let h := when err
    (emit (mkEntry WarnLevel [Err] (Msg "error reading from perf array"))) h in
  let h := when (negb (LostSamples record =? 0))
    (emit (mkEntry DebugLevel []
             (Msgf "lost samples l7-event %d" [ArgInt (LostSamples record)]))) h in
  match RawSample record with
  | None =>
      emit (mkEntry DebugLevel [] (Msgf "read sample l7-event nil or empty" [])) h
  | Some l7Event => l7_handle l7Event h
  end.

(* ================================================================= *)
(** ** Byte-slice helpers *)

Definition bytes (s : string) : list byte := list_byte_of_string s.

(** [findEndIndex]: the index of the first zero byte, or [len(b)]. *)
Fixpoint findEndIndex (b : list byte) : nat :=
  match b with
  | [] => 0%nat
  | v :: b' => if Byte.eqb v x00 then 0%nat else S (findEndIndex b')
  end.

Fixpoint HasPrefix (s prefix : list byte) {struct prefix} : bool :=
  match prefix, s with
  | [], _ => true
  | _ :: _, [] => false
  | p :: prefix', c :: s' => Byte.eqb c p && HasPrefix s' prefix'
  end.

(** [bytes.Index(s, sep)]: the index of the first instance of [sep] in [s];
    [None] is Go's -1. *)
Fixpoint Index (s sep : list byte) : option nat :=
  if HasPrefix s sep then Some 0%nat
  else match s with
       | [] => None
       | _ :: s' => option_map S (Index s' sep)
       end.

(** The loop of [genSplit]: at most [k] cuts, then the unsplit remainder. *)
Fixpoint splitLoop (k : nat) (s sep : list byte) : list (list byte) :=
  match k with
  | O => [s]
  | S k' =>
      match Index s sep with
      | None => [s]
      | Some m => firstn m s :: splitLoop k' (skipn (m + List.length sep) s) sep
      end
  end.

(** [bytes.SplitN(s, sep, n)] for a non-empty [sep] and [n >= 0], the two
    ways the parser calls it: no subslice when [n = 0], otherwise at most
    [min n (len(s)+1)] subslices, the last one the unsplit remainder. *)
Definition SplitN (s sep : list byte) (n : nat) : list (list byte) :=
  match n with
  | O => []
  | S _ => splitLoop (Nat.min n (List.length s + 1) - 1) s sep
  end.

(* ================================================================= *)
(** ** The log pump *)

(** Modelled from the spec: the struct [bpfLogMessage] is generated by
    bpf2go and is not part of the source at hand; its fields are those of
    the raw log message of the data model.  [findEndIndex] fixes both byte
    arrays at 100 bytes. *)
Module bpfLogMessage.
Record t : Type := mk {
  Level : Z;
  Pid : Z;                      (* uint32 *)
  FuncName : list byte;         (* [100]uint8 *)
  LogMsg : list byte;           (* [100]uint8 *)
  Arg1 : Z;                     (* uint64 *)
  Arg2 : Z;                     (* uint64 *)
  Arg3 : Z                      (* uint64 *)
}.
End bpfLogMessage.

Record arg : Type := mkArg {
  argName : string;
  argValue : Z
}.

Definition zero_arg : arg := mkArg "" 0.

(** [args[i] = a] on the three-element slice the pump allocates. *)
Fixpoint set_arg (i : nat) (a : arg) (args : list arg) : list arg :=
  match args, i with
  | [], _ => []
  | _ :: args', O => a :: args'
  | x :: args', S i' => x :: set_arg i' a args'
  end.

Definition get_arg (i : nat) (args : list arg) : arg := nth i args zero_arg.

Definition sep_dashes : list byte := bytes " -- ".
Definition sep_bar : list byte := bytes "|".

Definition warnf (format : string) (input : list byte) : Entry :=
  mkEntry WarnLevel [] (Msgf format [ArgStr (string_of_list_byte input)]).

(** The closure [parseLogMessage]: it writes the captured [args] and
    returns the message body, or nil ([None]) after a warning. *)
Definition parseLogMessage (input : list byte) (logMsg : bpfLogMessage.t)
    (args : list arg) (h : Host) : option (list byte) * list arg * Host :=
  let parts := SplitN input sep_dashes 2 in
  if negb (Nat.eqb (List.length parts) 2) then
    (None, args, emit (warnf "invalid ebpf log message: %s" input) h)
  else
    let parsedArgs := SplitN (nth 1 parts []) sep_bar 3 in
    if negb (Nat.eqb (List.length parsedArgs) 3) then
      (None, args, emit (warnf "invalid ebpf log message not 3 args: %s" input) h)
    else
      let args := set_arg 0 (mkArg (string_of_list_byte (nth 0 parsedArgs []))
                                   (bpfLogMessage.Arg1 logMsg)) args in
      let args := set_arg 1 (mkArg (string_of_list_byte (nth 1 parsedArgs []))
                                   (bpfLogMessage.Arg2 logMsg)) args in
      let args := set_arg 2 (mkArg (string_of_list_byte (nth 2 parsedArgs []))
                                   (bpfLogMessage.Arg3 logMsg)) args in
      (Some (nth 0 parts []), args, h).

(** The structured entry of the [switch logMsg.Level] arms. *)
Definition ebpf_log (lvl : Level) (funcName : list byte) (logMsg : bpfLogMessage.t)
    (args : list arg) (logMessage : list byte) : Entry :=
  mkEntry lvl
    [ Str "func" (string_of_list_byte funcName);
      Uint32 "pid" (bpfLogMessage.Pid logMsg);
      Uint64 (argName (get_arg 0 args)) (argValue (get_arg 0 args));
      Uint64 (argName (get_arg 1 args)) (argValue (get_arg 1 args));
      Uint64 (argName (get_arg 2 args)) (argValue (get_arg 2 args));
      Str "log-msg" (string_of_list_byte logMessage) ]
    (Msg "ebpf-log").

Definition log_handle (logMsg : bpfLogMessage.t) (h : Host) : Host :=
  let funcEnd := findEndIndex (bpfLogMessage.FuncName logMsg) in
  let msgEnd := findEndIndex (bpfLogMessage.LogMsg logMsg) in
  let logMessage := firstn msgEnd (bpfLogMessage.LogMsg logMsg) in
  let funcName := firstn funcEnd (bpfLogMessage.FuncName logMsg) in
  let args := [zero_arg; zero_arg; zero_arg] in
  let '(logMessage, args, h) := parseLogMessage logMessage logMsg args h in
  match logMessage with
  | None =>
      emit (warnf "invalid ebpf log message: %s" (bpfLogMessage.LogMsg logMsg)) h
  | Some logMessage =>
      let lvl := bpfLogMessage.Level logMsg in
      if lvl =? 0 then emit (ebpf_log DebugLevel funcName logMsg args logMessage) h
      else if lvl =? 1 then emit (ebpf_log InfoLevel funcName logMsg args logMessage) h
      else if lvl =? 2 then emit (ebpf_log WarnLevel funcName logMsg args logMessage) h
      else if lvl =? 3 then emit (ebpf_log ErrorLevel funcName logMsg args logMessage) h
      else h
  end.

(** One iteration of the log pump: [err] tells whether [logs.Read]
    returned an error. *)
Definition logs_read (err : bool) (record : perfRecord bpfLogMessage.t) (h : Host) : Host :=
  let h := when err
    (emit (mkEntry WarnLevel [Err] (Msg "error reading from perf array"))) h in
  let h := when (negb (LostSamples record =? 0))
    (emit (mkEntry DebugLevel []
             (Msgf "lost #%d samples due to ring buffer's full"
                   [ArgInt (LostSamples record)]))) h in
  match RawSample record with
  | None =>
      emit (mkEntry DebugLevel [] (Msgf "read empty record from perf array" [])) h
  | Some logMsg => log_handle logMsg h
  end.

Definition empty_host : Host := mkHost [] [].

(** Padding of a C string to a fixed-size array with zero bytes. *)
Definition cstring (size : nat) (s : string) : list byte :=
  bytes s ++ repeat x00 (size - List.length (bytes s)).

Definition mk_log (lvl : Z) (msg : string) : bpfLogMessage.t :=
  bpfLogMessage.mk lvl 42 (cstring 100 "handle_read") (cstring 100 msg) 7 128 3.

(* ================================================================= *)
(** ** Attach and teardown in [DeployAndWait] *)

Inductive Tracepoint : Type :=
| sys_enter_read | sys_enter_write | sys_exit_read | sys_enter_sendto
| sys_enter_recvfrom | sys_exit_recvfrom | sys_exit_sendto | sys_exit_write.

Inductive Ring : Type := L7Events | LogMap.

Inductive Resource : Type :=
| Objects                         (* L7BpfProgsAndMaps *)
| Link (tp : Tracepoint)          (* the link.Link of a tracepoint *)
| Reader (r : Ring).              (* a perf.Reader *)

Definition tracepoint_name (tp : Tracepoint) : string :=
  match tp with
  | sys_enter_read => "sys_enter_read"
  | sys_enter_write => "sys_enter_write"
  | sys_exit_read => "sys_exit_read"
  | sys_enter_sendto => "sys_enter_sendto"
  | sys_enter_recvfrom => "sys_enter_recvfrom"
  | sys_exit_recvfrom => "sys_exit_recvfrom"
  | sys_exit_sendto => "sys_exit_sendto"
  | sys_exit_write => "sys_exit_write"
  end.

(** The eight [link.Tracepoint] calls, in program order. *)
Definition tracepoints : list Tracepoint :=
  [ sys_enter_read; sys_enter_write; sys_exit_read; sys_enter_sendto;
    sys_enter_recvfrom; sys_exit_recvfrom; sys_exit_sendto; sys_exit_write ].

(** What the kernel answers to each acquisition. *)
Record Kernel : Type := mkKernel {
  attach_ok : Tracepoint -> bool;
  reader_ok : Ring -> bool;
  verifier_log : string       (* SysEnterWrite.VerifierLog *)
}.

(** The process while [DeployAndWait] runs. *)
Record Proc : Type := mkProc {
  held : list Resource;       (* acquired and not closed, oldest first *)
  defers : list Resource;     (* deferred closes, most recent first *)
  closed : list Resource;     (* closed resources, in closing order *)
  plog : list Entry           (* entries given to log.Logger *)
}.

(** Either the function is still running, or the process has exited. *)
Inductive Run : Type :=
| Running (p : Proc)
| Exited (p : Proc).

Definition andThen (r : Run) (k : Proc -> Run) : Run :=
  match r with
  | Running p => k p
  | Exited p => Exited p
  end.

Notation "r >>= k" := (andThen r k) (at level 50, left associativity).

Definition say (e : Entry) (p : Proc) : Proc :=
  mkProc (held p) (defers p) (closed p) (plog p ++ [e]).

Definition acquire (x : Resource) (p : Proc) : Proc :=
  mkProc (held p ++ [x]) (defers p) (closed p) (plog p).

Definition defer (x : Resource) (p : Proc) : Proc :=
  mkProc (held p) (x :: defers p) (closed p) (plog p).

Definition Resource_eq_dec (x y : Resource) : {x = y} + {x <> y}.
Proof. repeat decide equality. Defined.

Definition Resource_eqb (x y : Resource) : bool :=
  if Resource_eq_dec x y then true else false.

Definition close (x : Resource) (p : Proc) : Proc :=
  mkProc (filter (fun y => negb (Resource_eqb x y)) (held p))
         (defers p) (closed p ++ [x]) (plog p).

(** Modelled from the spec: [log.Logger.Fatal()...Msg(text)] belongs to the
    log package, which is not part of the source at hand.  A fatal startup
    error aborts the process with a single error entry naming the failed
    step: the entry is written and the process exits on the spot, so the
    calls deferred so far are never run. *)
Definition Fatal (text : string) (p : Proc) : Run :=
  Exited (say (mkEntry FatalLevel [Err] (Msg text)) p).

Definition Info (text : string) (p : Proc) : Proc :=
  say (mkEntry InfoLevel [] (Msg text)) p.

(** One [link.Tracepoint] block: attach, or report and die; then register
    the deferred close. *)
Definition attach (k : Kernel) (tp : Tracepoint) (p : Proc) : Run :=
  let name := tracepoint_name tp in
  if attach_ok k tp then
    let p := acquire (Link tp) p in
    let p := Info (name ++ " linked") p in
    Running (defer (Link tp) p)
  else
    let p := match tp with
             | sys_enter_write =>
                 say (mkEntry WarnLevel [Str "verifier log" (verifier_log k)]
                              (Msg "verifier log")) p
             | _ => p
             end in
    Fatal ("link " ++ name ++ " tracepoint") p.

Fixpoint attach_all (k : Kernel) (tps : list Tracepoint) (p : Proc) : Run :=
  match tps with
  | [] => Running p
  | tp :: tps' => attach k tp p >>= attach_all k tps'
  end.

(** One [perf.NewReader] block. *)
Definition new_reader (k : Kernel) (r : Ring) (p : Proc) : Run :=
  if reader_ok k r then
    Running (defer (Reader r) (acquire (Reader r) p))
  else Fatal "error creating perf event array reader" p.

(** What a deferred function does when it finally runs. *)
Definition run_deferred (x : Resource) (p : Proc) : Proc :=
  match x with
  | Objects => close Objects p
  | Link tp => close x (Info ("closing " ++ tracepoint_name tp ++ " tracepoint") p)
  | Reader _ => close x (Info "closing l7 events perf event array reader" p)
  end.

(** Returning from the function runs the deferred calls, last one first. *)
Definition return_ (p : Proc) : Proc :=
  let p' := fold_left (fun q x => run_deferred x q) (defers p) p in
  mkProc (held p') [] (closed p') (plog p').

(** [DeployAndWait] from its first statement until either a fatal error or
    the return that follows the cancellation of the context.  The process
    enters with the objects of [LoadBpfObjects] held; the two pumps run
    between the last acquisition and the return and touch no resource. *)
Definition DeployAndWait (k : Kernel) (p : Proc) : Run :=
  Running (defer Objects p)
  >>= attach_all k tracepoints
  >>= new_reader k L7Events
  >>= new_reader k LogMap
  >>= fun p => Running (return_ p).

Definition loaded : Proc := mkProc [Objects] [] [] [].

(** A kernel that refuses exactly the tracepoints of [bad], and no reader. *)
Definition refusing (bad : list Tracepoint) : Kernel :=
  mkKernel
    (fun tp => negb (existsb (fun b => Resource_eqb (Link b) (Link tp)) bad))
    (fun _ => true)
    "".

(* ================================================================= *)
(** ** Concrete records of the end-to-end scenarios *)

Definition payload_of (s : string) : list byte := cstring 512 s.

(** Scenario 1: HTTP GET, complete payload. *)
Definition http_get_record : bpfL7Event.t :=
  {| bpfL7Event.Fd := 12;
     bpfL7Event.WriteTimeNs := 1700000000;
     bpfL7Event.Pid := 7777;
     bpfL7Event.Status := 200;
     bpfL7Event.Duration := 125000;
     bpfL7Event.Protocol := 1;
     bpfL7Event.Method := 1;
     bpfL7Event.Payload := payload_of "GET / HTTP/1.1";
     bpfL7Event.PayloadSize := 14;
     bpfL7Event.PayloadReadComplete := 1;
     bpfL7Event.Failed := 0;
     bpfL7Event.IsTls := 0 |}.

(** A record that differs from scenario 1 in protocol, method, TLS flag and
    file descriptor only. *)
Definition record_with (protocol method isTls fd : Z) : bpfL7Event.t :=
  {| bpfL7Event.Fd := fd;
     bpfL7Event.WriteTimeNs := 1700000000;
     bpfL7Event.Pid := 7777;
     bpfL7Event.Status := 200;
     bpfL7Event.Duration := 125000;
     bpfL7Event.Protocol := protocol;
     bpfL7Event.Method := method;
     bpfL7Event.Payload := payload_of "GET / HTTP/1.1";
     bpfL7Event.PayloadSize := 14;
     bpfL7Event.PayloadReadComplete := 1;
     bpfL7Event.Failed := 0;
     bpfL7Event.IsTls := isTls |}.

(** Scenario 3: unknown protocol. *)
Definition unknown_protocol_record : bpfL7Event.t := record_with 9 3 0 12.

(* ================================================================= *)
(** ** Vocabulary of the properties *)

Section RoundTrip.

Variable table : list (Z * string).
Variable to_string : Z -> string.

(** Looking the string of [e] up again yields [e] exactly on the range. *)
Definition round_trip_iff_in_range : Prop :=
  forall e, lookup_string table (to_string e) = Some e <-> in_range table e = true.

Definition injective_on_range : Prop :=
  forall a b, in_range table a = true -> in_range table b = true ->
              to_string a = to_string b -> a = b.

(** The string of an out-of-range discriminant belongs to no entry. *)
Definition out_of_range_unattributed : Prop :=
  forall e, in_range table e = false ->
            lookup_string table (to_string e) = None /\
            forall k, In k (map fst table) -> to_string k <> to_string e.

End RoundTrip.

Definition table_round_trip (table : list (Z * string)) (to_string : Z -> string) : Prop :=
  round_trip_iff_in_range table to_string /\
  injective_on_range table to_string /\
  out_of_range_unattributed table to_string.

(** The event scenario 1 expects on the channel. *)
Definition http_get_event : L7Event.t :=
  {| L7Event.Fd := 12;
     L7Event.Pid := 7777;
     L7Event.Status := 200;
     L7Event.Duration := 125000;
     L7Event.Protocol := "HTTP";
     L7Event.Tls := false;
     L7Event.Method := "GET";
     L7Event.Payload := payload_of "GET / HTTP/1.1";
     L7Event.PayloadSize := 14;
     L7Event.PayloadReadComplete := true;
     L7Event.Failed := false;
     L7Event.WriteTimeNs := 1700000000 |}.

Definition bar : byte := x7c.

(** The four slices [parseLogMessage] cuts an accepted input into. *)
Definition cut_message (input : list byte)
  : option (list byte * list byte * list byte * list byte) :=
  match Index input sep_dashes with
  | None => None
  | Some m =>
      let tail := skipn (m + 4) input in
      match Index tail [bar] with
      | None => None
      | Some i =>
          let tail' := skipn (i + 1) tail in
          match Index tail' [bar] with
          | None => None
          | Some j => Some (firstn m input, firstn i tail, firstn j tail', skipn (j + 1) tail')
          end
      end
  end.

Definition named_args (logMsg : bpfLogMessage.t) (n1 n2 n3 : list byte) : list arg :=
  [ mkArg (string_of_list_byte n1) (bpfLogMessage.Arg1 logMsg);
    mkArg (string_of_list_byte n2) (bpfLogMessage.Arg2 logMsg);
    mkArg (string_of_list_byte n3) (bpfLogMessage.Arg3 logMsg) ].

(** [input] reads BODY " -- " N1 "|" N2 "|" REST, cut at the first " -- "
    and at the first two bars after it. *)
Definition cut_as (input body n1 n2 rest : list byte) : Prop :=
  input = body ++ sep_dashes ++ n1 ++ sep_bar ++ n2 ++ sep_bar ++ rest /\
  Index input sep_dashes = Some (List.length body) /\
  ~ In bar n1 /\ ~ In bar n2.

Definition well_formed (input : list byte) : Prop :=
  exists body n1 n2 rest, cut_as input body n1 n2 rest.

(** The delimiter is missing, or fewer than two bars follow its first
    occurrence. *)
Definition malformed (input : list byte) : Prop :=
  Index input sep_dashes = None \/
  exists m, Index input sep_dashes = Some m /\
            (count_occ Byte.byte_eq_dec (skipn (m + 4) input) bar < 2)%nat.

(** A C string held in a fixed-size array, cut at its first zero byte. *)
Definition trimmed (b : list byte) : list byte := firstn (findEndIndex b) b.

(** The host level of the arms of [switch logMsg.Level]. *)
Definition host_level (lvl : Z) : option Level :=
  match lvl with
  | 0 => Some DebugLevel
  | 1 => Some InfoLevel
  | 2 => Some WarnLevel
  | 3 => Some ErrorLevel
  | _ => None
  end.

(** The structured entries are those closed by [Msg("ebpf-log")]. *)
Definition is_ebpf_log (e : Entry) : bool :=
  match message e with
  | Msg text => String.eqb text "ebpf-log"
  | Msgf _ _ => false
  end.

Definition is_warn (e : Entry) : bool :=
  match level e with
  | WarnLevel => true
  | _ => false
  end.

(** [bytes.Split]: cut at every separator. *)
Definition Split (s sep : list byte) : list (list byte) :=
  splitLoop (List.length s) s sep.

(** The specification's reading of the parser: split on the first " -- ",
    then split the second part on "|" into tokens; exactly three of them. *)
Definition in_spec_grammar (input : list byte) : bool :=
  match Index input sep_dashes with
  | None => false
  | Some m => Nat.eqb (List.length (Split (skipn (m + 4) input) sep_bar)) 3
  end.

Definition bars (t : list byte) : nat := count_occ Byte.byte_eq_dec t bar.

(* ================================================================= *)
(** ** Loading, startup and the rest of the vocabulary *)



(** The process before anything is loaded. *)
Definition fresh : Proc := mkProc [] [] [] [].

(** [DeployAndWait] up to the last acquisition, before the pumps start. *)
Definition startup (k : Kernel) (p : Proc) : Run :=
  Running (defer Objects p)
  >>= attach_all k tracepoints
  >>= new_reader k L7Events
  >>= new_reader k LogMap.

(** Every held resource has its close deferred, the most recent first, and
    none has been closed. *)
Definition registered (p : Proc) : Prop :=
  defers p = rev (held p) /\ closed p = [].

Definition is_fatal (e : Entry) : bool :=
  match level e with
  | FatalLevel => true
  | _ => false
  end.

(** The number of fatal entries the process has written. *)
Definition fatals (p : Proc) : nat := List.length (filter is_fatal (plog p)).


(** A run that kept the books: closes registered and none run; one fatal
    entry if the process exited, none if it goes on. *)
Definition orderly (r : Run) : Prop :=
  match r with
  | Running p => registered p /\ fatals p = 0%nat
  | Exited p => registered p /\ fatals p = 1%nat
  end.


(** [bytes.Join(parts, sep)]. *)
Fixpoint Join (parts : list (list byte)) (sep : list byte) : list byte :=
  match parts with
  | [] => []
  | a :: rest =>
      match rest with
      | [] => a
      | _ :: _ => a ++ sep ++ Join rest sep
      end
  end.

(** Scenario 2: AMQP PUBLISH over TLS. *)
Definition amqp_publish_tls_record : bpfL7Event.t := record_with 2 1 1 12.

(* ================================================================= *)
(** ** Properties of the enum decoders *)

(** Case analysis of a discriminant against the constants 0..9. *)
Ltac split_on e ks :=
  lazymatch ks with
  | @nil _ => idtac
  | @cons _ ?k ?ks' => destruct (Z.eq_dec e k); [subst e | split_on e ks']
  end.

Ltac split_discriminant e :=
  split_on e (0 :: 1 :: 2 :: 3 :: 4 :: 5 :: 6 :: 7 :: 8 :: 9 :: nil).

Ltac eqb_false e :=
  repeat match goal with
         | H : e <> ?k |- _ =>
             let E := fresh "E" in
             assert (E : (e =? k) = false) by (apply Z.eqb_neq; exact H);
             clear H
         end.

Ltac unfold_enums :=
  unfold L7ProtocolConversion_String, HTTPMethodConversion_String,
    RabbitMQMethodConversion_String, PostgresMethodConversion_String,
    BPF_L7_PROTOCOL_UNKNOWN, BPF_L7_PROTOCOL_HTTP, BPF_L7_PROTOCOL_AMQP,
    BPF_L7_PROTOCOL_POSTGRES, BPF_METHOD_GET, BPF_METHOD_POST, BPF_METHOD_PUT,
    BPF_METHOD_PATCH, BPF_METHOD_DELETE, BPF_METHOD_HEAD, BPF_METHOD_CONNECT,
    BPF_METHOD_OPTIONS, BPF_METHOD_TRACE, BPF_AMQP_METHOD_PUBLISH,
    BPF_AMQP_METHOD_DELIVER,
    BPF_POSTGRES_METHOD_STATEMENT_CLOSE_OR_CONN_TERMINATE,
    BPF_POSTGRES_METHOD_SIMPLE_QUERY in *.

Lemma protocol_string_default (e : Z) :
  e <> 0 -> e <> 1 -> e <> 2 -> e <> 3 ->
  L7ProtocolConversion_String e = "Unknown".
Proof.
  intros H0 H1 H2 H3. unfold_enums. eqb_false e.
  now rewrite E, E0, E1, E2.
Qed.

Lemma http_string_default (e : Z) :
  ~ (1 <= e <= 9) -> HTTPMethodConversion_String e = "Unknown".
Proof.
  intros H. unfold_enums.
  repeat match goal with
         | |- context [e =? ?k] => destruct (Z.eqb_spec e k); [lia | ]
         end.
  reflexivity.
Qed.

Lemma amqp_string_default (e : Z) :
  e <> 1 -> e <> 2 -> RabbitMQMethodConversion_String e = "Unknown".
Proof.
  intros H1 H2. unfold_enums. eqb_false e. now rewrite E, E0.
Qed.

Lemma postgres_string_default (e : Z) :
  e <> 1 -> e <> 2 -> PostgresMethodConversion_String e = "Unknown".
Proof.
  intros H1 H2. unfold_enums. eqb_false e. now rewrite E, E0.
Qed.

(** The method of a record is chosen by its raw protocol discriminant. *)
Lemma decode_method_by_protocol (r : bpfL7Event.t) :
  decode_method r =
    let p := bpfL7Event.Protocol r in
    let m := bpfL7Event.Method r in
    if p =? 1 then HTTPMethodConversion_String m
    else if p =? 2 then RabbitMQMethodConversion_String m
    else if p =? 3 then PostgresMethodConversion_String m
    else "Unknown".
Proof.
  unfold decode_method, decode_protocol. cbv zeta.
  set (p := bpfL7Event.Protocol r).
  destruct (Z.eq_dec p 0) as [->|N0]; [reflexivity|].
  destruct (Z.eq_dec p 1) as [->|N1]; [reflexivity|].
  destruct (Z.eq_dec p 2) as [->|N2]; [reflexivity|].
  destruct (Z.eq_dec p 3) as [->|N3]; [reflexivity|].
  rewrite (protocol_string_default p N0 N1 N2 N3).
  apply Z.eqb_neq in N1, N2, N3. now rewrite N1, N2, N3.
Qed.

Lemma unknown_differs : "Unknown" <> L7_PROTOCOL_UNKNOWN.
Proof. apply String.eqb_neq. reflexivity. Qed.

(** C1, as stated, fails on the record of scenario 3 (protocol 9, method
    3): its discriminant is outside 0..3, yet the decoded protocol string is
    not "UNKNOWN" and is none of the four canonical protocol strings. *)
Lemma unknown_discriminant_is_not_UNKNOWN :
  ~ In (bpfL7Event.Protocol unknown_protocol_record) [0; 1; 2; 3] /\
  L7Event.Protocol (decode_l7 unknown_protocol_record) <> "UNKNOWN" /\
  ~ In (L7Event.Protocol (decode_l7 unknown_protocol_record))
       ["HTTP"; "AMQP"; "POSTGRES"; "UNKNOWN"].
Proof.
  split; [|split].
  - cbn. intros [H|[H|[H|[H|[]]]]]; discriminate H.
  - apply String.eqb_neq. reflexivity.
  - cbn. intros [H|[H|[H|[H|[]]]]]; discriminate H.
Qed.

(** C1, amended: a record whose protocol discriminant is outside 0..3
    decodes to the protocol string "Unknown" (the default arm, not the
    constant "UNKNOWN") and to the method string "Unknown"; every decoded
    protocol string is one of "HTTP", "AMQP", "POSTGRES", "UNKNOWN",
    "Unknown". *)
Theorem unknown_discriminant_decoding (r : bpfL7Event.t) :
  (~ In (bpfL7Event.Protocol r) [0; 1; 2; 3] ->
     L7Event.Protocol (decode_l7 r) = "Unknown" /\
     L7Event.Method (decode_l7 r) = "Unknown") /\
  In (L7Event.Protocol (decode_l7 r))
     ["HTTP"; "AMQP"; "POSTGRES"; "UNKNOWN"; "Unknown"].
Proof.
  cbn [L7Event.Protocol L7Event.Method decode_l7].
  rewrite decode_method_by_protocol. unfold decode_protocol. cbv zeta.
  set (p := bpfL7Event.Protocol r).
  destruct (Z.eq_dec p 0) as [E|N0];
    [rewrite E; split; [intros H; exfalso; apply H; cbn; tauto | cbn; tauto]|].
  destruct (Z.eq_dec p 1) as [E|N1];
    [rewrite E; split; [intros H; exfalso; apply H; cbn; tauto | cbn; tauto]|].
  destruct (Z.eq_dec p 2) as [E|N2];
    [rewrite E; split; [intros H; exfalso; apply H; cbn; tauto | cbn; tauto]|].
  destruct (Z.eq_dec p 3) as [E|N3];
    [rewrite E; split; [intros H; exfalso; apply H; cbn; tauto | cbn; tauto]|].
  rewrite (protocol_string_default p N0 N1 N2 N3).
  apply Z.eqb_neq in N1, N2, N3. rewrite N1, N2, N3.
  split; [intros _; split; reflexivity | cbn; tauto].
Qed.

Lemma unknown_discriminant_decoding_witness :
  ~ In (bpfL7Event.Protocol unknown_protocol_record) [0; 1; 2; 3] /\
  L7Event.Protocol (decode_l7 unknown_protocol_record) = "Unknown" /\
  L7Event.Method (decode_l7 unknown_protocol_record) = "Unknown".
Proof.
  assert (H : ~ In (bpfL7Event.Protocol unknown_protocol_record) [0; 1; 2; 3]).
  { cbn. intros [H|[H|[H|[H|[]]]]]; discriminate H. }
  split; [exact H|].
  exact (proj1 (unknown_discriminant_decoding unknown_protocol_record) H).
Defined.

(** C6: a decoded event whose protocol string is "UNKNOWN" comes from the
    raw discriminant 0 and carries the method string "Unknown", whatever
    the raw method value is. *)
Theorem unknown_protocol_has_unknown_method (r : bpfL7Event.t)
    (H : L7Event.Protocol (decode_l7 r) = L7_PROTOCOL_UNKNOWN) :
  bpfL7Event.Protocol r = 0 /\ L7Event.Method (decode_l7 r) = "Unknown".
Proof.
  revert H. cbn [L7Event.Protocol L7Event.Method decode_l7].
  rewrite decode_method_by_protocol. unfold decode_protocol. cbv zeta.
  set (p := bpfL7Event.Protocol r).
  destruct (Z.eq_dec p 0) as [E|N0]; [rewrite E; split; reflexivity|].
  destruct (Z.eq_dec p 1) as [E|N1]; [rewrite E; discriminate|].
  destruct (Z.eq_dec p 2) as [E|N2]; [rewrite E; discriminate|].
  destruct (Z.eq_dec p 3) as [E|N3]; [rewrite E; discriminate|].
  rewrite (protocol_string_default p N0 N1 N2 N3).
  intros H. exfalso. exact (unknown_differs H).
Qed.

Lemma unknown_protocol_has_unknown_method_witness :
  bpfL7Event.Protocol (record_with 0 3 0 12) = 0 /\
  L7Event.Method (decode_l7 (record_with 0 3 0 12)) = "Unknown".
Proof.
  apply (unknown_protocol_has_unknown_method (record_with 0 3 0 12)).
  reflexivity.
Defined.

(* ================================================================= *)
(** ** Round trip through the tables *)

Lemma round_trip_injective (table : list (Z * string)) (to_string : Z -> string) :
  round_trip_iff_in_range table to_string -> injective_on_range table to_string.
Proof.
  intros RT a b Ha Hb E.
  apply RT in Ha. apply RT in Hb. rewrite E in Ha. congruence.
Qed.

(** The remaining case of [split_discriminant]: every comparison fails. *)
Ltac all_comparisons_fail e :=
  eqb_false e; cbn;
  repeat match goal with
         | E : (e =? _) = false |- _ => rewrite E in *; clear E
         end; cbn.

Ltac settle_iff :=
  let H := fresh "H" in cbn; split; intros H; (reflexivity || discriminate H).

Lemma protocol_round_trip :
  round_trip_iff_in_range protocol_table L7ProtocolConversion_String.
Proof.
  intros e. unfold in_range, protocol_table. unfold_enums.
  split_discriminant e; [settle_iff .. | ].
  all_comparisons_fail e. split; intros H; discriminate H.
Qed.

Lemma http_round_trip :
  round_trip_iff_in_range http_table HTTPMethodConversion_String.
Proof.
  intros e. unfold in_range, http_table. unfold_enums.
  split_discriminant e; [settle_iff .. | ].
  all_comparisons_fail e. split; intros H; discriminate H.
Qed.

Lemma amqp_round_trip :
  round_trip_iff_in_range amqp_table RabbitMQMethodConversion_String.
Proof.
  intros e. unfold in_range, amqp_table. unfold_enums.
  split_discriminant e; [settle_iff .. | ].
  all_comparisons_fail e. split; intros H; discriminate H.
Qed.

Lemma postgres_round_trip :
  round_trip_iff_in_range postgres_table PostgresMethodConversion_String.
Proof.
  intros e. unfold in_range, postgres_table. unfold_enums.
  split_discriminant e; [settle_iff .. | ].
  all_comparisons_fail e. split; intros H; discriminate H.
Qed.

Ltac settle_keys :=
  cbn; intros k Hk;
  repeat (destruct Hk as [Hk|Hk]; [subst k; apply String.eqb_neq; reflexivity|]);
  contradiction.

Ltac settle_unattributed e :=
  intros e; unfold in_range; unfold_enums;
  split_discriminant e;
  [ cbn; intros H; first [discriminate H | split; [reflexivity | settle_keys]] ..
  | all_comparisons_fail e; intros _; split; [reflexivity | settle_keys] ].

Lemma protocol_unattributed :
  out_of_range_unattributed protocol_table L7ProtocolConversion_String.
Proof. unfold protocol_table. settle_unattributed e. Qed.

Lemma http_unattributed :
  out_of_range_unattributed http_table HTTPMethodConversion_String.
Proof. unfold http_table. settle_unattributed e. Qed.

Lemma amqp_unattributed :
  out_of_range_unattributed amqp_table RabbitMQMethodConversion_String.
Proof. unfold amqp_table. settle_unattributed e. Qed.

Lemma postgres_unattributed :
  out_of_range_unattributed postgres_table PostgresMethodConversion_String.
Proof. unfold postgres_table. settle_unattributed e. Qed.

Lemma table_ranges (e : Z) :
  (in_range protocol_table e = true <-> 0 <= e <= 3) /\
  (in_range http_table e = true <-> 1 <= e <= 9) /\
  (in_range amqp_table e = true <-> 1 <= e <= 2) /\
  (in_range postgres_table e = true <-> 1 <= e <= 2).
Proof.
  unfold in_range, protocol_table, http_table, amqp_table, postgres_table.
  unfold_enums. cbn.
  split_discriminant e;
    [ cbn; repeat split; intros Hr; (reflexivity || lia || discriminate Hr) .. | ].
  assert (Hout : ~ 0 <= e <= 9) by lia.
  all_comparisons_fail e.
  repeat split; intros Hr; (lia || discriminate Hr).
Qed.

(** C7: for each of the four enumerations, looking the string of a
    discriminant back up in the table of the switch arms recovers the
    discriminant if and only if it is in the table's range; the conversion
    is injective on the range, and the string of an out-of-range
    discriminant is found in no entry of the table.  The ranges are 0..3
    for the protocol, 1..9 for HTTP, 1..2 for AMQP and for Postgres. *)
Theorem enum_round_trip :
  table_round_trip protocol_table L7ProtocolConversion_String /\
  table_round_trip http_table HTTPMethodConversion_String /\
  table_round_trip amqp_table RabbitMQMethodConversion_String /\
  table_round_trip postgres_table PostgresMethodConversion_String /\
  forall e,
    (in_range protocol_table e = true <-> 0 <= e <= 3) /\
    (in_range http_table e = true <-> 1 <= e <= 9) /\
    (in_range amqp_table e = true <-> 1 <= e <= 2) /\
    (in_range postgres_table e = true <-> 1 <= e <= 2).
Proof.
  unfold table_round_trip.
  split; [|split; [|split; [|split; [|exact table_ranges]]]];
    (split; [|split; [apply round_trip_injective|]]);
    first [ exact protocol_round_trip | exact http_round_trip
          | exact amqp_round_trip | exact postgres_round_trip
          | exact protocol_unattributed | exact http_unattributed
          | exact amqp_unattributed | exact postgres_unattributed ].
Qed.

(* ================================================================= *)
(** ** HTTP records and fields carried through *)

Lemma http_string_table (e : Z) :
  HTTPMethodConversion_String e =
  string_of_table
    [ (1, "GET"); (2, "POST"); (3, "PUT"); (4, "PATCH"); (5, "DELETE");
      (6, "HEAD"); (7, "CONNECT"); (8, "OPTIONS"); (9, "TRACE") ] e.
Proof.
  unfold string_of_table. unfold_enums.
  split_discriminant e; [reflexivity .. | ].
  all_comparisons_fail e. reflexivity.
Qed.

(** C5: a record with protocol discriminant 1 decodes to protocol "HTTP"
    and to the method given by the table 1 GET .. 9 TRACE, with "Unknown"
    for 0 and every other value; all other fields are carried verbatim, the
    byte flags through [uint8ToBool]; the record of scenario 1 is sent on
    the channel as the expected event, with no log entry. *)
Theorem http_record_decoding (r : bpfL7Event.t)
    (H : bpfL7Event.Protocol r = 1) :
  let e := decode_l7 r in
  let m := bpfL7Event.Method r in
  L7Event.Protocol e = "HTTP" /\
  L7Event.Method e =
    string_of_table
      [ (1, "GET"); (2, "POST"); (3, "PUT"); (4, "PATCH"); (5, "DELETE");
        (6, "HEAD"); (7, "CONNECT"); (8, "OPTIONS"); (9, "TRACE") ] m /\
  (~ (1 <= m <= 9) -> L7Event.Method e = "Unknown") /\
  L7Event.Fd e = bpfL7Event.Fd r /\
  L7Event.Pid e = bpfL7Event.Pid r /\
  L7Event.Status e = bpfL7Event.Status r /\
  L7Event.Duration e = bpfL7Event.Duration r /\
  L7Event.Payload e = bpfL7Event.Payload r /\
  L7Event.PayloadSize e = bpfL7Event.PayloadSize r /\
  L7Event.WriteTimeNs e = bpfL7Event.WriteTimeNs r /\
  L7Event.Tls e = negb (bpfL7Event.IsTls r =? 0) /\
  L7Event.PayloadReadComplete e = negb (bpfL7Event.PayloadReadComplete r =? 0) /\
  L7Event.Failed e = negb (bpfL7Event.Failed r =? 0) /\
  decode_l7 http_get_record = http_get_event /\
  l7_read false (mkRecord (Some http_get_record) 0) empty_host
    = mkHost [] [http_get_event].
Proof.
  cbv zeta. cbn [L7Event.Protocol L7Event.Method L7Event.Fd L7Event.Pid
    L7Event.Status L7Event.Duration L7Event.Payload L7Event.PayloadSize
    L7Event.WriteTimeNs L7Event.Tls L7Event.PayloadReadComplete
    L7Event.Failed decode_l7].
  rewrite decode_method_by_protocol. unfold decode_protocol. cbv zeta.
  rewrite H. cbn [Z.eqb Pos.eqb].
  split; [reflexivity|].
  split; [apply http_string_table|].
  split; [apply http_string_default|].
  repeat (split; [reflexivity|]).
  split; reflexivity.
Qed.

Lemma http_record_decoding_witness :
  L7Event.Protocol (decode_l7 http_get_record) = "HTTP" /\
  L7Event.Method (decode_l7 http_get_record) = "GET" /\
  L7Event.Status (decode_l7 http_get_record) = 200 /\
  L7Event.PayloadSize (decode_l7 http_get_record) = 14 /\
  L7Event.PayloadReadComplete (decode_l7 http_get_record) = true /\
  L7Event.Tls (decode_l7 http_get_record) = false /\
  L7Event.Failed (decode_l7 http_get_record) = false.
Proof.
  pose proof (http_record_decoding http_get_record eq_refl) as H.
  cbv zeta in H.
  destruct H as (Hp & Hm & _ & _ & _ & Hs & _ & _ & Hz & _ & Ht & Hc & Hf & _).
  repeat split; assumption.
Defined.

(* ================================================================= *)
(** ** The TLS debug entry *)

Lemma string_of_list_byte_length (l : list byte) :
  String.length (string_of_list_byte l) = List.length l.
Proof.
  unfold string_of_list_byte.
  induction l as [|b l IH]; cbn; [reflexivity | now rewrite IH].
Qed.

Lemma l7_handle_tls (r : bpfL7Event.t) (h : Host) :
  uint8ToBool (bpfL7Event.IsTls r) = true ->
  l7_handle r h = mkHost (host_log h ++ [l7tls_entry r]) (ch h ++ [decode_l7 r]).
Proof.
  intros H. unfold l7_handle, when. rewrite H. reflexivity.
Qed.

Lemma l7_handle_plain (r : bpfL7Event.t) (h : Host) :
  uint8ToBool (bpfL7Event.IsTls r) = false ->
  l7_handle r h = mkHost (host_log h) (ch h ++ [decode_l7 r]).
Proof.
  intros H. unfold l7_handle, when. rewrite H. reflexivity.
Qed.

(** C9: for a record with is_tls true the pump writes one debug entry
    whose fd field is the raw fd reduced modulo 2^16 (its low 16 bits),
    while the event sent on the channel keeps the full fd. *)
Theorem tls_debug_log_truncates_fd (r : bpfL7Event.t) (h : Host)
    (H : uint8ToBool (bpfL7Event.IsTls r) = true) :
  exists e ev,
    host_log (l7_handle r h) = host_log h ++ [e] /\
    ch (l7_handle r h) = ch h ++ [ev] /\
    level e = DebugLevel /\
    message e = Msg "l7tls event" /\
    uint16_field "fd" (fields e) = Some (bpfL7Event.Fd r mod 2 ^ 16) /\
    bpfL7Event.Fd r mod 2 ^ 16 = Z.land (bpfL7Event.Fd r) (Z.ones 16) /\
    0 <= bpfL7Event.Fd r mod 2 ^ 16 < 2 ^ 16 /\
    L7Event.Fd ev = bpfL7Event.Fd r.
Proof.
  exists (l7tls_entry r), (decode_l7 r).
  rewrite (l7_handle_tls r h H). cbn [host_log ch].
  repeat (split; [reflexivity|]).
  split; [symmetry; apply Z.land_ones; lia|].
  split; [apply Z.mod_pos_bound; lia | reflexivity].
Qed.

Lemma tls_debug_log_truncates_fd_witness :
  exists e ev,
    host_log (l7_handle (record_with 2 1 1 65548) empty_host) = [e] /\
    ch (l7_handle (record_with 2 1 1 65548) empty_host) = [ev] /\
    uint16_field "fd" (fields e) = Some 12 /\
    L7Event.Fd ev = 65548.
Proof.
  destruct (tls_debug_log_truncates_fd (record_with 2 1 1 65548) empty_host eq_refl)
    as (e & ev & Hl & Hc & _ & _ & Hf & _ & _ & Hfd).
  exists e, ev. repeat split; assumption.
Defined.

(** C10: for a record with is_tls true and a 512-byte payload buffer the
    payload field of the debug entry holds all 512 bytes of the buffer,
    whatever payload_size says; when payload_size is below 512 it is not
    the string of the first payload_size bytes. *)
Theorem tls_debug_log_carries_whole_payload (r : bpfL7Event.t) (h : Host)
    (H : uint8ToBool (bpfL7Event.IsTls r) = true)
    (Hlen : List.length (bpfL7Event.Payload r) = 512%nat) :
  exists e s,
    host_log (l7_handle r h) = host_log h ++ [e] /\
    str_field "payload" (fields e) = Some s /\
    String.length s = 512%nat /\
    list_byte_of_string s = bpfL7Event.Payload r /\
    (0 <= bpfL7Event.PayloadSize r < 512 ->
     s <> string_of_list_byte
            (firstn (Z.to_nat (bpfL7Event.PayloadSize r)) (bpfL7Event.Payload r))).
Proof.
  exists (l7tls_entry r), (string_of_list_byte (bpfL7Event.Payload r)).
  rewrite (l7_handle_tls r h H). cbn [host_log].
  split; [reflexivity|]. split; [reflexivity|].
  split; [now rewrite string_of_list_byte_length|].
  split; [apply list_byte_of_string_of_list_byte|].
  intros Hsize E. apply (f_equal String.length) in E.
  rewrite !string_of_list_byte_length, Hlen in E.
  pose proof (firstn_le_length (Z.to_nat (bpfL7Event.PayloadSize r))
                (bpfL7Event.Payload r)) as Hle.
  pose proof (length_firstn (Z.to_nat (bpfL7Event.PayloadSize r))
                (bpfL7Event.Payload r)) as Hfl.
  lia.
Qed.

Lemma tls_debug_log_carries_whole_payload_witness :
  exists e s,
    host_log (l7_handle (record_with 2 1 1 12) empty_host) = [e] /\
    str_field "payload" (fields e) = Some s /\
    String.length s = 512%nat /\
    list_byte_of_string s = payload_of "GET / HTTP/1.1".
Proof.
  destruct (tls_debug_log_carries_whole_payload (record_with 2 1 1 12)
              empty_host eq_refl eq_refl)
    as (e & s & Hl & Hs & Hn & Hb & _).
  exists e, s. repeat split; assumption.
Defined.

(* ================================================================= *)
(** ** The byte helpers *)

Lemma byte_eqb_eq (a b : byte) : Byte.eqb a b = true <-> a = b.
Proof. split; [apply Byte.byte_dec_bl | apply Byte.byte_dec_lb]. Qed.

Lemma byte_eqb_neq (a b : byte) : Byte.eqb a b = false <-> a <> b.
Proof.
  split.
  - apply Byte.eqb_false.
  - intros N. destruct (Byte.eqb a b) eqn:E; [|reflexivity].
    apply byte_eqb_eq in E. contradiction.
Qed.

Lemma HasPrefix_cut (s prefix : list byte) :
  HasPrefix s prefix = true -> s = prefix ++ skipn (List.length prefix) s.
Proof.
  revert s. induction prefix as [|p prefix IH]; intros s H.
  - reflexivity.
  - destruct s as [|c s]; [discriminate H|].
    cbn in H. apply andb_true_iff in H. destruct H as [Hc Hs].
    apply byte_eqb_eq in Hc. subst c. cbn. f_equal. now apply IH.
Qed.

Lemma HasPrefix_app (prefix rest : list byte) :
  HasPrefix (prefix ++ rest) prefix = true.
Proof.
  induction prefix as [|p prefix IH]; [reflexivity|].
  cbn. rewrite IH. now rewrite (proj2 (byte_eqb_eq p p) eq_refl).
Qed.

Lemma Index_unfold (s sep : list byte) :
  Index s sep =
    if HasPrefix s sep then Some 0%nat
    else match s with
         | [] => None
         | _ :: s' => option_map S (Index s' sep)
         end.
Proof. destruct s; reflexivity. Qed.

(** [Index] finds an occurrence: the slice before it, the separator, and
    the slice after it make up the input. *)
Lemma Index_cut (s sep : list byte) (m : nat) :
  Index s sep = Some m ->
  s = firstn m s ++ sep ++ skipn (m + List.length sep) s.
Proof.
  revert m. induction s as [|c s IH]; intros m H; rewrite Index_unfold in H.
  - destruct (HasPrefix [] sep) eqn:P; [|discriminate H].
    injection H as <-. now apply HasPrefix_cut in P.
  - destruct (HasPrefix (c :: s) sep) eqn:P.
    + injection H as <-. now apply HasPrefix_cut in P.
    + destruct (Index s sep) as [m'|] eqn:E; [|discriminate H].
      injection H as <-. cbn. f_equal. now apply IH.
Qed.

(** ... and it is the first one. *)
Lemma Index_first (s sep : list byte) (m i : nat) :
  Index s sep = Some m -> (i < m)%nat -> HasPrefix (skipn i s) sep = false.
Proof.
  revert m i. induction s as [|c s IH]; intros m i H Hi; rewrite Index_unfold in H.
  - destruct (HasPrefix [] sep); [injection H as <-; lia | discriminate H].
  - destruct (HasPrefix (c :: s) sep) eqn:P; [injection H as <-; lia|].
    destruct (Index s sep) as [m'|] eqn:E; [|discriminate H].
    injection H as <-. destruct i as [|i]; [exact P|].
    cbn. apply (IH m'); [reflexivity | lia].
Qed.

Lemma Index_None (s sep : list byte) (i : nat) :
  Index s sep = None -> HasPrefix (skipn i s) sep = false.
Proof.
  revert i. induction s as [|c s IH]; intros i H; rewrite Index_unfold in H.
  - destruct (HasPrefix [] sep) eqn:P; [discriminate H|].
    now destruct i.
  - destruct (HasPrefix (c :: s) sep) eqn:P; [discriminate H|].
    destruct (Index s sep) eqn:E; [discriminate H|].
    destruct i as [|i]; [exact P | cbn; now apply IH].
Qed.

Lemma Index_bar (s : list byte) :
  Index s [bar] =
    match s with
    | [] => None
    | c :: s' => if Byte.eqb c bar then Some 0%nat else option_map S (Index s' [bar])
    end.
Proof.
  rewrite Index_unfold. destruct s as [|c s]; [reflexivity|].
  cbn [HasPrefix]. destruct s; now rewrite andb_true_r.
Qed.

Lemma Index_bar_app (n rest : list byte) :
  ~ In bar n -> Index (n ++ bar :: rest) [bar] = Some (List.length n).
Proof.
  induction n as [|c n IH]; intros Hn; rewrite Index_bar; cbn.
  - reflexivity.
  - destruct (Byte.eqb c bar) eqn:E.
    + apply byte_eqb_eq in E. exfalso. apply Hn. now left.
    + rewrite IH; [reflexivity|]. intros Hin. apply Hn. now right.
Qed.

Lemma Index_bar_Some (s : list byte) (i : nat) :
  Index s [bar] = Some i ->
  ~ In bar (firstn i s) /\ s = firstn i s ++ bar :: skipn (i + 1) s.
Proof.
  revert i. induction s as [|c s IH]; intros i H; rewrite Index_bar in H.
  - discriminate H.
  - destruct (Byte.eqb c bar) eqn:E.
    + injection H as <-. apply byte_eqb_eq in E. subst c.
      split; [intros [] | reflexivity].
    + destruct (Index s [bar]) as [i'|] eqn:Ei; [|discriminate H].
      injection H as <-. destruct (IH i' eq_refl) as [Hn Hs].
      apply byte_eqb_neq in E. split.
      * cbn. intros [Hc|Hin]; [now apply E | now apply Hn].
      * cbn. f_equal. exact Hs.
Qed.

Lemma Index_bar_count (s : list byte) :
  match Index s [bar] with
  | None => count_occ Byte.byte_eq_dec s bar = 0%nat
  | Some i =>
      count_occ Byte.byte_eq_dec s bar
      = S (count_occ Byte.byte_eq_dec (skipn (i + 1) s) bar)
  end.
Proof.
  induction s as [|c s IH]; rewrite Index_bar; [reflexivity|].
  destruct (Byte.eqb c bar) eqn:E.
  - apply byte_eqb_eq in E. subst c. cbn.
    destruct (Byte.byte_eq_dec bar bar); [reflexivity | contradiction].
  - apply byte_eqb_neq in E. cbn [count_occ].
    destruct (Byte.byte_eq_dec c bar); [contradiction|].
    destruct (Index s [bar]) as [i|]; cbn; exact IH.
Qed.

Lemma Index_le (s sep : list byte) (m : nat) :
  Index s sep = Some m -> (m + List.length sep <= List.length s)%nat.
Proof.
  assert (P : forall t, HasPrefix t sep = true ->
                       (List.length sep <= List.length t)%nat).
  { intros t Ht. apply HasPrefix_cut in Ht.
    apply (f_equal (@List.length byte)) in Ht.
    rewrite length_app in Ht. lia. }
  revert m. induction s as [|c s IH]; intros m H; rewrite Index_unfold in H.
  - destruct (HasPrefix [] sep) eqn:E; [|discriminate H].
    injection H as <-. now apply P.
  - destruct (HasPrefix (c :: s) sep) eqn:E.
    + injection H as <-. now apply P.
    + destruct (Index s sep) as [m'|]; [|discriminate H].
      injection H as <-. specialize (IH m' eq_refl). cbn [List.length]. lia.
Qed.

Section Slices.

Variable A : Type.

Lemma firstn_length_app (a b : list A) : firstn (List.length a) (a ++ b) = a.
Proof. induction a as [|x a IH]; cbn; [reflexivity | now rewrite IH]. Qed.

Lemma skipn_length_app (a b : list A) (n : nat) :
  skipn (List.length a + n) (a ++ b) = skipn n b.
Proof. induction a as [|x a IH]; cbn; [reflexivity | exact IH]. Qed.

End Slices.

Lemma sep_bar_eq : sep_bar = [bar].
Proof. reflexivity. Qed.

Lemma SplitN_dashes (s : list byte) :
  SplitN s sep_dashes 2 =
    match Index s sep_dashes with
    | None => [s]
    | Some m => [firstn m s; skipn (m + 4) s]
    end.
Proof.
  unfold SplitN. destruct s as [|c s]; [reflexivity|].
  replace (Nat.min 2 (List.length (c :: s) + 1) - 1)%nat with 1%nat
    by (cbn [List.length]; lia).
  cbn [splitLoop]. destruct (Index (c :: s) sep_dashes); reflexivity.
Qed.

Lemma SplitN_bar (s : list byte) :
  SplitN s sep_bar 3 =
    match Index s [bar] with
    | None => [s]
    | Some i =>
        firstn i s ::
        match Index (skipn (i + 1) s) [bar] with
        | None => [skipn (i + 1) s]
        | Some j => [firstn j (skipn (i + 1) s); skipn (j + 1) (skipn (i + 1) s)]
        end
    end.
Proof.
  unfold SplitN. rewrite sep_bar_eq. destruct s as [|c [|d s]].
  - reflexivity.
  - replace (Nat.min 3 (List.length [c] + 1) - 1)%nat with 1%nat by reflexivity.
    cbn [splitLoop]. rewrite Index_bar.
    destruct (Byte.eqb c bar); reflexivity.
  - replace (Nat.min 3 (List.length (c :: d :: s) + 1) - 1)%nat with 2%nat
      by (cbn [List.length]; lia).
    cbn [splitLoop]. destruct (Index (c :: d :: s) [bar]) as [i|]; [|reflexivity].
    cbn [List.length]. destruct (Index (skipn (i + 1) (c :: d :: s)) [bar]); reflexivity.
Qed.

Lemma parseLogMessage_cut (input : list byte) (logMsg : bpfLogMessage.t)
    (a b c : arg) (h : Host) :
  parseLogMessage input logMsg [a; b; c] h =
    match Index input sep_dashes with
    | None => (None, [a; b; c], emit (warnf "invalid ebpf log message: %s" input) h)
    | Some _ =>
        match cut_message input with
        | None =>
            (None, [a; b; c],
             emit (warnf "invalid ebpf log message not 3 args: %s" input) h)
        | Some (body, n1, n2, n3) => (Some body, named_args logMsg n1 n2 n3, h)
        end
    end.
Proof.
  unfold parseLogMessage, cut_message. rewrite SplitN_dashes.
  destruct (Index input sep_dashes) as [m|]; [|reflexivity].
  cbn [List.length Nat.eqb negb nth]. rewrite SplitN_bar. cbv zeta.
  destruct (Index (skipn (m + 4) input) [bar]) as [i|]; [|reflexivity].
  destruct (Index (skipn (i + 1) (skipn (m + 4) input)) [bar]) as [j|]; reflexivity.
Qed.

(* ================================================================= *)
(** ** The language of the log-message parser *)

Lemma cut_message_cut_as (input body n1 n2 rest : list byte) :
  cut_message input = Some (body, n1, n2, rest) <-> cut_as input body n1 n2 rest.
Proof.
  unfold cut_message, cut_as. split.
  - destruct (Index input sep_dashes) as [m|] eqn:Em; [|discriminate].
    cbv zeta. set (tail := skipn (m + 4) input).
    destruct (Index tail [bar]) as [i|] eqn:Ei; [|discriminate].
    set (tail' := skipn (i + 1) tail).
    destruct (Index tail' [bar]) as [j|] eqn:Ej; [|discriminate].
    intros H. injection H as <- <- <- <-.
    pose proof (Index_cut _ _ _ Em) as Hc.
    change (skipn (m + List.length sep_dashes) input) with tail in Hc.
    pose proof (Index_le _ _ _ Em) as Hle.
    destruct (Index_bar_Some _ _ Ei) as [H1 Ht]. fold tail' in Ht.
    destruct (Index_bar_Some _ _ Ej) as [H2 Ht'].
    repeat split; try assumption.
    + rewrite sep_bar_eq. cbn [app]. rewrite <- Ht', <- Ht. exact Hc.
    + rewrite length_firstn, Nat.min_l by lia. reflexivity.
  - intros (E & Hi & H1 & H2). rewrite Hi.
    assert (Hb : firstn (List.length body) input = body).
    { rewrite E. apply firstn_length_app. }
    assert (Ht : skipn (List.length body + 4) input = n1 ++ bar :: n2 ++ bar :: rest).
    { rewrite E. rewrite skipn_length_app. reflexivity. }
    cbv zeta. rewrite Hb, Ht.
    rewrite (Index_bar_app n1 _ H1).
    replace (List.length n1 + 1)%nat with (List.length n1 + 0 + 1)%nat by lia.
    rewrite <- Nat.add_assoc.
    change (n1 ++ bar :: n2 ++ bar :: rest) with (n1 ++ (bar :: n2 ++ bar :: rest)).
    rewrite skipn_length_app. cbn [Nat.add skipn].
    rewrite firstn_length_app.
    rewrite (Index_bar_app n2 _ H2).
    replace (List.length n2 + 1)%nat with (List.length n2 + 0 + 1)%nat by lia.
    rewrite <- Nat.add_assoc. rewrite skipn_length_app. cbn [Nat.add skipn].
    rewrite firstn_length_app. reflexivity.
Qed.

(** The delimiter of a cut is the first one: none starts inside the body. *)
Lemma cut_as_first_delimiter (input body n1 n2 rest : list byte) (i : nat) :
  cut_as input body n1 n2 rest ->
  (i < List.length body)%nat ->
  HasPrefix (skipn i input) sep_dashes = false.
Proof.
  intros (_ & Hi & _) Hlt. exact (Index_first _ _ _ _ Hi Hlt).
Qed.

Lemma cut_message_well_formed (input : list byte) :
  cut_message input <> None <-> well_formed input.
Proof.
  unfold well_formed. split.
  - destruct (cut_message input) as [[[[body n1] n2] rest]|] eqn:E; [|congruence].
    intros _. exists body, n1, n2, rest. now apply cut_message_cut_as.
  - intros (body & n1 & n2 & rest & H). apply cut_message_cut_as in H.
    congruence.
Qed.

Lemma cut_message_malformed (input : list byte) :
  cut_message input = None <-> malformed input.
Proof.
  unfold cut_message, malformed.
  destruct (Index input sep_dashes) as [m|] eqn:Em.
  - cbv zeta. set (tail := skipn (m + 4) input).
    pose proof (Index_bar_count tail) as C1.
    destruct (Index tail [bar]) as [i|] eqn:Ei.
    + pose proof (Index_bar_count (skipn (i + 1) tail)) as C2.
      destruct (Index (skipn (i + 1) tail) [bar]) as [j|] eqn:Ej.
      * split; [discriminate|].
        intros [H|(m' & H & Hc)]; [discriminate H|].
        injection H as <-. fold tail in Hc. lia.
      * split; [|reflexivity]. intros _. right. exists m.
        split; [reflexivity|]. fold tail. lia.
    + split; [|reflexivity]. intros _. right. exists m.
      split; [reflexivity|]. fold tail. lia.
  - split; [now left | reflexivity].
Qed.

Lemma malformed_or_well_formed (input : list byte) :
  malformed input <-> ~ well_formed input.
Proof.
  rewrite <- cut_message_malformed, <- cut_message_well_formed.
  destruct (cut_message input) as [p|]; split; intros H.
  - discriminate H.
  - exfalso. apply H. discriminate.
  - intros N. now apply N.
  - reflexivity.
Qed.

(* ================================================================= *)
(** ** The log pump on one record *)

Lemma logs_read_sample (logMsg : bpfLogMessage.t) (h : Host) :
  logs_read false (mkRecord (Some logMsg) 0) h = log_handle logMsg h.
Proof. reflexivity. Qed.

Lemma host_level_dispatch (lvl : Z) (f : Level -> Host -> Host) (h : Host) :
  (if lvl =? 0 then f DebugLevel h
   else if lvl =? 1 then f InfoLevel h
   else if lvl =? 2 then f WarnLevel h
   else if lvl =? 3 then f ErrorLevel h
   else h)
  = match host_level lvl with
    | Some l => f l h
    | None => h
    end.
Proof.
  destruct (Z.eq_dec lvl 0) as [->|N0]; [reflexivity|].
  destruct (Z.eq_dec lvl 1) as [->|N1]; [reflexivity|].
  destruct (Z.eq_dec lvl 2) as [->|N2]; [reflexivity|].
  destruct (Z.eq_dec lvl 3) as [->|N3]; [reflexivity|].
  assert (E : host_level lvl = None).
  { destruct lvl as [|q|q]; try reflexivity; [contradiction|].
    destruct q as [[q|q|]|[q|q|]|]; try reflexivity; contradiction. }
  rewrite E. apply Z.eqb_neq in N0, N1, N2, N3.
  now rewrite N0, N1, N2, N3.
Qed.

(** What one record makes the pump do, by the cut of its message. *)
Lemma log_handle_cut (logMsg : bpfLogMessage.t) (h : Host) :
  log_handle logMsg h =
    let input := trimmed (bpfLogMessage.LogMsg logMsg) in
    let funcName := trimmed (bpfLogMessage.FuncName logMsg) in
    let again := warnf "invalid ebpf log message: %s" (bpfLogMessage.LogMsg logMsg) in
    match Index input sep_dashes with
    | None => emit again (emit (warnf "invalid ebpf log message: %s" input) h)
    | Some _ =>
        match cut_message input with
        | None =>
            emit again (emit (warnf "invalid ebpf log message not 3 args: %s" input) h)
        | Some (body, n1, n2, n3) =>
            match host_level (bpfLogMessage.Level logMsg) with
            | Some l => emit (ebpf_log l funcName logMsg (named_args logMsg n1 n2 n3) body) h
            | None => h
            end
        end
    end.
Proof.
  unfold log_handle, trimmed. cbv zeta. rewrite parseLogMessage_cut.
  destruct (Index _ sep_dashes) as [m|]; [|reflexivity].
  destruct (cut_message _) as [[[[body n1] n2] n3]|]; [|reflexivity].
  exact (host_level_dispatch _
           (fun l => emit (ebpf_log l _ logMsg (named_args logMsg n1 n2 n3) body)) h).
Qed.

Lemma filter_snoc_false (f : Entry -> bool) (l : list Entry) (e : Entry) :
  f e = false -> filter f (l ++ [e]) = filter f l.
Proof.
  intros H. rewrite filter_app. cbn. rewrite H. apply app_nil_r.
Qed.

(** A rejected message: two warnings and nothing else. *)
Lemma log_handle_malformed (logMsg : bpfLogMessage.t) (h : Host) :
  malformed (trimmed (bpfLogMessage.LogMsg logMsg)) ->
  exists format,
    (format = "invalid ebpf log message: %s" \/
     format = "invalid ebpf log message not 3 args: %s") /\
    log_handle logMsg h =
      mkHost (host_log h ++
                [ warnf format (trimmed (bpfLogMessage.LogMsg logMsg));
                  warnf "invalid ebpf log message: %s" (bpfLogMessage.LogMsg logMsg) ])
             (ch h).
Proof.
  intros H. apply cut_message_malformed in H.
  rewrite log_handle_cut. cbv zeta. rewrite H.
  destruct (Index _ sep_dashes).
  - eexists. split; [right; reflexivity|].
    unfold emit. cbn [host_log ch]. now rewrite <- app_assoc.
  - eexists. split; [left; reflexivity|].
    unfold emit. cbn [host_log ch]. now rewrite <- app_assoc.
Qed.

(** A rejected message adds no structured entry. *)
Lemma log_handle_malformed_quiet (logMsg : bpfLogMessage.t) (h : Host) :
  malformed (trimmed (bpfLogMessage.LogMsg logMsg)) ->
  filter is_ebpf_log (host_log (log_handle logMsg h))
  = filter is_ebpf_log (host_log h).
Proof.
  intros H. destruct (log_handle_malformed logMsg h H) as (fmt & _ & ->).
  cbn [host_log].
  change [warnf fmt (trimmed (bpfLogMessage.LogMsg logMsg));
          warnf "invalid ebpf log message: %s" (bpfLogMessage.LogMsg logMsg)]
    with ([warnf fmt (trimmed (bpfLogMessage.LogMsg logMsg))] ++
          [warnf "invalid ebpf log message: %s" (bpfLogMessage.LogMsg logMsg)]).
  rewrite app_assoc.
  now rewrite !filter_snoc_false by reflexivity.
Qed.

(** An accepted message: one structured entry, or none at all. *)
Lemma log_handle_well_formed (logMsg : bpfLogMessage.t) (h : Host)
    (body n1 n2 rest : list byte) :
  cut_as (trimmed (bpfLogMessage.LogMsg logMsg)) body n1 n2 rest ->
  log_handle logMsg h =
    match host_level (bpfLogMessage.Level logMsg) with
    | Some l =>
        emit (ebpf_log l (trimmed (bpfLogMessage.FuncName logMsg)) logMsg
                (named_args logMsg n1 n2 rest) body) h
    | None => h
    end.
Proof.
  intros H. pose proof H as (_ & Hi & _). apply cut_message_cut_as in H.
  rewrite log_handle_cut. cbv zeta. now rewrite Hi, H.
Qed.

Lemma host_level_range (lvl : Z) :
  (0 <= lvl <= 3 ->
   host_level lvl =
     Some (nth (Z.to_nat lvl) [DebugLevel; InfoLevel; WarnLevel; ErrorLevel] FatalLevel)) /\
  (~ 0 <= lvl <= 3 -> host_level lvl = None).
Proof.
  split; intros H.
  - assert (C : lvl = 0 \/ lvl = 1 \/ lvl = 2 \/ lvl = 3) by lia.
    destruct C as [->|[->|[->| ->]]]; reflexivity.
  - destruct lvl as [|q|q]; try reflexivity; [lia|].
    destruct q as [[q|q|]|[q|q|]|]; try reflexivity; lia.
Qed.

(* ================================================================= *)
(** ** The grammar as the specification words it *)

Lemma splitLoop_bar_length (k : nat) (t : list byte) :
  List.length (splitLoop k t [bar]) = S (Nat.min k (bars t)).
Proof.
  revert t. induction k as [|k IH]; intros t; [reflexivity|].
  cbn [splitLoop]. pose proof (Index_bar_count t) as C. fold (bars t) in C.
  destruct (Index t [bar]) as [i|]; [fold (bars (skipn (i + 1) t)) in C|].
  - cbn [List.length]. rewrite IH, C. reflexivity.
  - rewrite C. reflexivity.
Qed.

Lemma bars_le_length (t : list byte) : (bars t <= List.length t)%nat.
Proof.
  unfold bars. induction t as [|c t IH]; cbn; [lia|].
  destruct (Byte.byte_eq_dec c bar); lia.
Qed.

Lemma Split_bar_length (t : list byte) :
  List.length (Split t sep_bar) = S (bars t).
Proof.
  unfold Split. rewrite sep_bar_eq, splitLoop_bar_length.
  pose proof (bars_le_length t). lia.
Qed.

Lemma bars_app (a b : list byte) : bars (a ++ b) = (bars a + bars b)%nat.
Proof. apply count_occ_app. Qed.

Lemma bars_none (a : list byte) : bars a = 0%nat <-> ~ In bar a.
Proof. symmetry. apply count_occ_not_In. Qed.

Lemma bars_cons_bar (a : list byte) : bars (bar :: a) = S (bars a).
Proof. now apply count_occ_cons_eq. Qed.

(** The specification's grammar is the parser's language with a third
    token free of bars. *)
Lemma in_spec_grammar_cut (input : list byte) :
  in_spec_grammar input = true <->
  exists body n1 n2 n3, cut_as input body n1 n2 n3 /\ ~ In bar n3.
Proof.
  unfold in_spec_grammar. split.
  - destruct (Index input sep_dashes) as [m|] eqn:Em; [|discriminate].
    rewrite Split_bar_length. intros H. apply Nat.eqb_eq in H.
    destruct (cut_message input) as [[[[body n1] n2] n3]|] eqn:Ec.
    + exists body, n1, n2, n3. apply cut_message_cut_as in Ec.
      split; [exact Ec|]. destruct Ec as (E & Hi & H1 & H2).
      rewrite Em in Hi. injection Hi as ->.
      assert (Ht : skipn (List.length body + 4) input = n1 ++ bar :: n2 ++ bar :: n3).
      { rewrite E, skipn_length_app. reflexivity. }
      rewrite Ht, bars_app, bars_cons_bar, bars_app, bars_cons_bar in H.
      apply bars_none. lia.
    + apply cut_message_malformed in Ec.
      destruct Ec as [Ec|(m' & Ec & Hc)]; [congruence|].
      rewrite Em in Ec. injection Ec as <-. fold (bars (skipn (m + 4) input)) in Hc. lia.
  - intros (body & n1 & n2 & n3 & (E & Hi & H1 & H2) & H3).
    rewrite Hi, Split_bar_length. apply Nat.eqb_eq.
    assert (Ht : skipn (List.length body + 4) input = n1 ++ bar :: n2 ++ bar :: n3).
    { rewrite E, skipn_length_app. reflexivity. }
    rewrite Ht, bars_app, bars_cons_bar, bars_app, bars_cons_bar.
    apply bars_none in H1, H2, H3. lia.
Qed.

(* ================================================================= *)
(** ** Properties of the log pump *)

(** C3, as stated, fails: "x -- a|b|c|d" has four tokens after the
    delimiter, so it is outside the grammar with three bar-free names, yet
    the pump emits a structured entry for it, its third name being "c|d". *)
Lemma four_tokens_are_logged :
  in_spec_grammar (bytes "x -- a|b|c|d") = false /\
  host_log (logs_read false (mkRecord (Some (mk_log 1 "x -- a|b|c|d")) 0) empty_host)
  = [ mkEntry InfoLevel
        [ Str "func" "handle_read"; Uint32 "pid" 42;
          Uint64 "a" 7; Uint64 "b" 128; Uint64 "c|d" 3;
          Str "log-msg" "x" ]
        (Msg "ebpf-log") ].
Proof. split; reflexivity. Qed.

(** C3, amended: the parser accepts exactly the inputs of the form
    BODY " -- " N1 "|" N2 "|" REST, cut at the first " -- " and the first
    two bars after it, so N1 and N2 are bar-free and REST is whatever
    follows, bars included.  For such a message and a level in 0..3 the
    pump emits exactly one structured entry, at that level, whose three
    argument names are N1, N2, REST zipped with arg1, arg2, arg3 and whose
    log-msg is BODY; for every other message it emits no structured
    entry. *)
Theorem log_parser_language (logMsg : bpfLogMessage.t) (h : Host) :
  let input := trimmed (bpfLogMessage.LogMsg logMsg) in
  let funcName := trimmed (bpfLogMessage.FuncName logMsg) in
  (forall a b c h',
     fst (fst (parseLogMessage input logMsg [a; b; c] h')) <> None
     <-> exists body n1 n2 rest, cut_as input body n1 n2 rest) /\
  (forall body n1 n2 rest,
     cut_as input body n1 n2 rest ->
     0 <= bpfLogMessage.Level logMsg <= 3 ->
     host_log (log_handle logMsg h) =
       host_log h ++
       [ mkEntry
           (nth (Z.to_nat (bpfLogMessage.Level logMsg))
                [DebugLevel; InfoLevel; WarnLevel; ErrorLevel] FatalLevel)
           [ Str "func" (string_of_list_byte funcName);
             Uint32 "pid" (bpfLogMessage.Pid logMsg);
             Uint64 (string_of_list_byte n1) (bpfLogMessage.Arg1 logMsg);
             Uint64 (string_of_list_byte n2) (bpfLogMessage.Arg2 logMsg);
             Uint64 (string_of_list_byte rest) (bpfLogMessage.Arg3 logMsg);
             Str "log-msg" (string_of_list_byte body) ]
           (Msg "ebpf-log") ]) /\
  ((~ exists body n1 n2 rest, cut_as input body n1 n2 rest) ->
   filter is_ebpf_log (host_log (log_handle logMsg h))
   = filter is_ebpf_log (host_log h)).
Proof.
  cbv zeta. split; [|split].
  - intros a b c h'. rewrite parseLogMessage_cut.
    fold (well_formed (trimmed (bpfLogMessage.LogMsg logMsg))).
    rewrite <- cut_message_well_formed. unfold cut_message.
    destruct (Index _ sep_dashes) as [m|]; [|cbn; tauto].
    set (tail := skipn (m + 4) _). cbv zeta.
    destruct (Index tail [bar]) as [i|]; [|cbn; tauto].
    destruct (Index (skipn (i + 1) tail) [bar]) as [j|]; [|cbn; tauto].
    cbn. split; discriminate.
  - intros body n1 n2 rest Hc Hl.
    rewrite (log_handle_well_formed logMsg h body n1 n2 rest Hc).
    rewrite (proj1 (host_level_range _) Hl). reflexivity.
  - intros Hn. apply malformed_or_well_formed in Hn.
    now apply log_handle_malformed_quiet.
Qed.

Lemma log_parser_language_witness :
  cut_as (trimmed (bpfLogMessage.LogMsg (mk_log 1 "read done -- fd|len|cpu")))
         (bytes "read done") (bytes "fd") (bytes "len") (bytes "cpu") /\
  host_log (log_handle (mk_log 1 "read done -- fd|len|cpu") empty_host)
  = [ mkEntry InfoLevel
        [ Str "func" "handle_read"; Uint32 "pid" 42;
          Uint64 "fd" 7; Uint64 "len" 128; Uint64 "cpu" 3;
          Str "log-msg" "read done" ]
        (Msg "ebpf-log") ].
Proof.
  assert (Hc : cut_as (trimmed (bpfLogMessage.LogMsg (mk_log 1 "read done -- fd|len|cpu")))
                 (bytes "read done") (bytes "fd") (bytes "len") (bytes "cpu")).
  { unfold cut_as. split; [reflexivity|]. split; [reflexivity|].
    split; cbn; intros H; repeat (destruct H as [H|H]; [discriminate H|]);
      exact H. }
  split; [exact Hc|].
  pose proof (log_parser_language (mk_log 1 "read done -- fd|len|cpu") empty_host) as T.
  cbv zeta in T. destruct T as (_ & T & _).
  refine (T (bytes "read done") (bytes "fd") (bytes "len") (bytes "cpu") Hc _).
  cbn. lia.
Defined.

(** C4, as stated, fails on the record of scenario 5: for the message
    "no delimiter here" the pump emits two WARN entries, not one. *)
Lemma missing_delimiter_warns_twice :
  Index (bytes "no delimiter here") sep_dashes = None /\
  List.length
    (filter is_warn
       (host_log (logs_read false (mkRecord (Some (mk_log 1 "no delimiter here")) 0)
                            empty_host))) = 2%nat.
Proof. split; reflexivity. Qed.

(** C4, amended: for every log record whose message lacks the " -- "
    delimiter, or has fewer than two bars after its first occurrence, the
    pump emits exactly two WARN entries and no structured entry: the
    parser's warning quoting the message up to its first zero byte,
    then the caller's warning quoting the whole message buffer. *)
Theorem malformed_log_record_warns_twice (logMsg : bpfLogMessage.t) (h : Host)
    (H : malformed (trimmed (bpfLogMessage.LogMsg logMsg))) :
  exists format,
    (format = "invalid ebpf log message: %s" \/
     format = "invalid ebpf log message not 3 args: %s") /\
    host_log (log_handle logMsg h) =
      host_log h ++
      [ mkEntry WarnLevel []
          (Msgf format
             [ArgStr (string_of_list_byte (trimmed (bpfLogMessage.LogMsg logMsg)))]);
        mkEntry WarnLevel []
          (Msgf "invalid ebpf log message: %s"
             [ArgStr (string_of_list_byte (bpfLogMessage.LogMsg logMsg))]) ] /\
    ch (log_handle logMsg h) = ch h /\
    filter is_ebpf_log (host_log (log_handle logMsg h))
    = filter is_ebpf_log (host_log h).
Proof.
  pose proof (log_handle_malformed_quiet logMsg h H) as Q.
  destruct (log_handle_malformed logMsg h H) as (fmt & Hf & E).
  exists fmt. split; [exact Hf|]. rewrite E in *. cbn [host_log ch] in *.
  split; [reflexivity|]. split; [reflexivity | exact Q].
Qed.

Lemma malformed_log_record_warns_twice_witness :
  malformed (trimmed (bpfLogMessage.LogMsg (mk_log 1 "x -- a|b"))) /\
  exists format,
    host_log (log_handle (mk_log 1 "x -- a|b") empty_host) =
      [ mkEntry WarnLevel [] (Msgf format [ArgStr "x -- a|b"]);
        mkEntry WarnLevel []
          (Msgf "invalid ebpf log message: %s"
             [ArgStr (string_of_list_byte (cstring 100 "x -- a|b"))]) ].
Proof.
  assert (Hm : malformed (trimmed (bpfLogMessage.LogMsg (mk_log 1 "x -- a|b")))).
  { right. exists 1%nat. split; [reflexivity|]. vm_compute. lia. }
  split; [exact Hm|].
  destruct (malformed_log_record_warns_twice (mk_log 1 "x -- a|b") empty_host Hm)
    as (fmt & _ & Hl & _).
  exists fmt. exact Hl.
Defined.

(** C8, as stated, fails: a record with level 9 whose message has no
    delimiter still makes the pump emit two WARN entries. *)
Lemma bad_level_still_warns :
  ~ In (bpfLogMessage.Level (mk_log 9 "no delimiter here")) [0; 1; 2; 3] /\
  host_log (logs_read false (mkRecord (Some (mk_log 9 "no delimiter here")) 0)
                      empty_host)
  = [ mkEntry WarnLevel []
        (Msgf "invalid ebpf log message: %s" [ArgStr "no delimiter here"]);
      mkEntry WarnLevel []
        (Msgf "invalid ebpf log message: %s"
           [ArgStr (string_of_list_byte (cstring 100 "no delimiter here"))]) ].
Proof.
  split; [|reflexivity].
  cbn. intros [H|[H|[H|[H|[]]]]]; discriminate H.
Qed.

(** C8, amended: for a record whose level is outside 0..3 the pump emits
    no structured entry, and no entry at all when the message is one the
    parser accepts (a rejected message still gets its warnings, whatever
    the level); for a level in 0..3 and an accepted message it emits one
    structured entry at debug, info, warn or error respectively. *)
Theorem log_level_dispatch (logMsg : bpfLogMessage.t) (h : Host) :
  let input := trimmed (bpfLogMessage.LogMsg logMsg) in
  let lvl := bpfLogMessage.Level logMsg in
  (~ 0 <= lvl <= 3 ->
     filter is_ebpf_log (host_log (log_handle logMsg h))
     = filter is_ebpf_log (host_log h) /\
     (well_formed input -> log_handle logMsg h = h)) /\
  (0 <= lvl <= 3 -> well_formed input ->
     exists e,
       host_log (log_handle logMsg h) = host_log h ++ [e] /\
       level e = nth (Z.to_nat lvl)
                     [DebugLevel; InfoLevel; WarnLevel; ErrorLevel] FatalLevel /\
       message e = Msg "ebpf-log").
Proof.
  cbv zeta. split.
  - intros Hl. apply (proj2 (host_level_range _)) in Hl.
    assert (W : well_formed (trimmed (bpfLogMessage.LogMsg logMsg)) ->
                log_handle logMsg h = h).
    { intros (body & n1 & n2 & rest & Hc).
      rewrite (log_handle_well_formed logMsg h body n1 n2 rest Hc).
      now rewrite Hl. }
    split; [|exact W].
    destruct (cut_message (trimmed (bpfLogMessage.LogMsg logMsg))) eqn:Ec.
    + rewrite W; [reflexivity|].
      apply cut_message_well_formed. congruence.
    + apply cut_message_malformed in Ec.
      now apply log_handle_malformed_quiet.
  - intros Hl (body & n1 & n2 & rest & Hc).
    rewrite (log_handle_well_formed logMsg h body n1 n2 rest Hc).
    rewrite (proj1 (host_level_range _) Hl).
    eexists. split; [reflexivity|]. split; reflexivity.
Qed.

Lemma log_level_dispatch_witness :
  ~ 0 <= bpfLogMessage.Level (mk_log 9 "x -- a|b|c") <= 3 /\
  log_handle (mk_log 9 "x -- a|b|c") empty_host = empty_host.
Proof.
  assert (Hl : ~ 0 <= bpfLogMessage.Level (mk_log 9 "x -- a|b|c") <= 3)
    by (cbn; lia).
  split; [exact Hl|].
  pose proof (log_level_dispatch (mk_log 9 "x -- a|b|c") empty_host) as T.
  cbv zeta in T. destruct T as (T & _). destruct (T Hl) as (_ & W).
  apply W. exists (bytes "x"), (bytes "a"), (bytes "b"), (bytes "c").
  unfold cut_as. split; [reflexivity|]. split; [reflexivity|].
  split; cbn; intros H; repeat (destruct H as [H|H]; [discriminate H|]); exact H.
Defined.

(* ================================================================= *)
(** ** Fatal startup errors and the deferred closes *)

Lemma attach_ok_step (k : Kernel) (tp : Tracepoint) (p : Proc) :
  attach_ok k tp = true ->
  exists p', attach k tp p = Running p' /\
             closed p' = closed p /\
             held p' = held p ++ [Link tp] /\
             defers p' = Link tp :: defers p.
Proof.
  intros H. unfold attach. rewrite H. eexists. split; [reflexivity|].
  repeat split.
Qed.

Lemma attach_refused_step (k : Kernel) (tp : Tracepoint) (p : Proc) :
  attach_ok k tp = false ->
  exists p', attach k tp p = Exited p' /\
             closed p' = closed p /\ held p' = held p /\ defers p' = defers p.
Proof.
  intros H. unfold attach. rewrite H. unfold Fatal.
  eexists. split; [reflexivity|]. destruct tp; repeat split.
Qed.

(** Attachments up to the first refused one stay held, and nothing is
    closed, when the process exits. *)
Lemma attach_all_refused (k : Kernel) (pre post : list Tracepoint)
    (tp : Tracepoint) (p : Proc) :
  (forall t, In t pre -> attach_ok k t = true) ->
  attach_ok k tp = false ->
  exists p', attach_all k (pre ++ tp :: post) p = Exited p' /\
             closed p' = closed p /\
             held p' = held p ++ map Link pre.
Proof.
  revert p. induction pre as [|t pre IH]; intros p Hpre Htp.
  - destruct (attach_refused_step k tp p Htp) as (p' & E & Hc & Hh & _).
    exists p'. cbn. rewrite E. cbn. rewrite app_nil_r. auto.
  - destruct (attach_ok_step k t p (Hpre t (or_introl eq_refl)))
      as (p1 & E & Hc & Hh & _).
    destruct (IH p1 (fun x Hx => Hpre x (or_intror Hx)) Htp)
      as (p' & E' & Hc' & Hh').
    exists p'. cbn [app attach_all]. rewrite E. cbn [andThen].
    split; [exact E'|]. split; [congruence|].
    rewrite Hh', Hh, <- app_assoc. reflexivity.
Qed.

Lemma fatal_attach_leaks (k : Kernel) (pre post : list Tracepoint) (tp : Tracepoint) :
  tracepoints = pre ++ tp :: post ->
  (forall t, In t pre -> attach_ok k t = true) ->
  attach_ok k tp = false ->
  exists p, DeployAndWait k loaded = Exited p /\
            closed p = [] /\
            held p = Objects :: map Link pre.
Proof.
  intros E Hpre Htp. unfold DeployAndWait. rewrite E.
  destruct (attach_all_refused k pre post tp (defer Objects loaded) Hpre Htp)
    as (p & Ea & Hc & Hh).
  exists p. cbn [andThen]. rewrite Ea. cbn [andThen]. auto.
Qed.

(** The return that follows the cancellation closes everything, last
    acquired first. *)
Lemma return_closes_all :
  exists p, DeployAndWait (refusing []) loaded = Running p /\
            held p = [] /\
            closed p =
              [ Reader LogMap; Reader L7Events; Link sys_exit_write;
                Link sys_exit_sendto; Link sys_exit_recvfrom;
                Link sys_enter_recvfrom; Link sys_enter_sendto;
                Link sys_exit_read; Link sys_enter_write;
                Link sys_enter_read; Objects ].
Proof. eexists. split; [reflexivity|]. split; reflexivity. Qed.

(** C2: when the second attachment (sys_enter_write) is refused, the
    process exits through the fatal logger with the first attachment
    (sys_enter_read) still held and its deferred close never run: nothing
    has been closed at exit. *)
Theorem second_attach_refused_leaks_first :
  exists p,
    DeployAndWait (refusing [sys_enter_write]) loaded = Exited p /\
    held p = [Objects; Link sys_enter_read] /\
    defers p = [Link sys_enter_read; Objects] /\
    closed p = [].
Proof. eexists. split; [reflexivity|]. repeat split. Qed.

(* ================================================================= *)
(** ** C strings in fixed-size arrays *)

Lemma findEndIndex_le (b : list byte) : (findEndIndex b <= List.length b)%nat.
Proof.
  induction b as [|v b IH]; cbn; [lia|].
  destruct (Byte.eqb v x00); lia.
Qed.

(** X1: [findEndIndex] stays within the array, every byte before the index
    it returns is non-zero, and the byte at that index is zero unless the
    index is the length of the array. *)
Theorem findEndIndex_first_zero (b : list byte) :
  (findEndIndex b <= List.length b)%nat /\
  (forall i, (i < findEndIndex b)%nat -> nth i b x00 <> x00) /\
  ((findEndIndex b < List.length b)%nat -> nth (findEndIndex b) b x00 = x00).
Proof.
  split; [apply findEndIndex_le|].
  induction b as [|v b [IH1 IH2]]; cbn [findEndIndex].
  - split; [intros i Hi; inversion Hi | cbn; lia].
  - destruct (Byte.eqb v x00) eqn:E.
    + apply byte_eqb_eq in E. subst v.
      split; [intros i Hi; inversion Hi | reflexivity].
    + apply byte_eqb_neq in E. split.
      * intros [|i] Hi; [exact E | cbn; apply IH1; lia].
      * intros Hlt. cbn. apply IH2. cbn in Hlt. lia.
Qed.

Lemma findEndIndex_first_zero_witness :
  findEndIndex (cstring 100 "handle_read") = 11%nat /\
  nth (findEndIndex (cstring 100 "handle_read")) (cstring 100 "handle_read") x00 = x00.
Proof.
  split; [reflexivity|].
  apply (proj2 (proj2 (findEndIndex_first_zero (cstring 100 "handle_read")))).
  vm_compute. lia.
Defined.

Lemma findEndIndex_app_zero (s t : list byte) :
  ~ In x00 s -> findEndIndex (s ++ x00 :: t) = List.length s.
Proof.
  induction s as [|c s IH]; intros H; cbn; [reflexivity|].
  destruct (Byte.eqb c x00) eqn:E.
  - apply byte_eqb_eq in E. exfalso. apply H. now left.
  - f_equal. apply IH. intros Hin. apply H. now right.
Qed.

Lemma findEndIndex_no_zero (s : list byte) :
  ~ In x00 s -> findEndIndex s = List.length s.
Proof.
  induction s as [|c s IH]; intros H; cbn; [reflexivity|].
  destruct (Byte.eqb c x00) eqn:E.
  - apply byte_eqb_eq in E. exfalso. apply H. now left.
  - f_equal. apply IH. intros Hin. apply H. now right.
Qed.


(** X2: cutting at [findEndIndex] recovers a zero-free string from the
    array it was stored in, whatever follows its terminating zero byte,
    and keeps a zero-free array whole (the full, unterminated case). *)
Theorem trimmed_c_string (s t : list byte) (H : ~ In x00 s) :
  trimmed (s ++ x00 :: t) = s /\ trimmed s = s.
Proof.
  unfold trimmed. rewrite (findEndIndex_app_zero s t H), (findEndIndex_no_zero s H).
  split; [apply firstn_length_app | apply firstn_all].
Qed.

Lemma trimmed_c_string_witness :
  trimmed (bytes "handle_read" ++ x00 :: bytes "stale") = bytes "handle_read" /\
  trimmed (bytes "handle_read") = bytes "handle_read".
Proof.
  apply (trimmed_c_string (bytes "handle_read") (bytes "stale")).
  cbn. intros H. repeat (destruct H as [H|H]; [discriminate H|]). exact H.
Defined.

(* ================================================================= *)
(** ** More on the L7 event pump *)

Lemma amqp_string_table (e : Z) :
  RabbitMQMethodConversion_String e =
  string_of_table [ (1, "PUBLISH"); (2, "DELIVER") ] e.
Proof.
  unfold string_of_table. unfold_enums.
  split_discriminant e; [reflexivity .. | ].
  all_comparisons_fail e. reflexivity.
Qed.

Lemma postgres_string_table (e : Z) :
  PostgresMethodConversion_String e =
  string_of_table [ (1, "CLOSE_OR_TERMINATE"); (2, "SIMPLE_QUERY") ] e.
Proof.
  unfold string_of_table. unfold_enums.
  split_discriminant e; [reflexivity .. | ].
  all_comparisons_fail e. reflexivity.
Qed.

Lemma string_of_table_in (t : list (Z * string)) (e : Z) :
  In (string_of_table t e) (map snd t ++ ["Unknown"]).
Proof.
  unfold string_of_table. apply in_or_app.
  destruct (find _ t) as [kv|] eqn:F; [left | right; now left].
  apply find_some in F. apply in_map. tauto.
Qed.

(** X3: the method string of a decoded event always belongs to the table
    of its protocol string: an HTTP event carries an HTTP method name or
    "Unknown", an AMQP event PUBLISH, DELIVER or "Unknown", a POSTGRES
    event CLOSE_OR_TERMINATE, SIMPLE_QUERY or "Unknown", and an event of
    any other protocol carries "Unknown". *)
Theorem method_belongs_to_protocol (r : bpfL7Event.t) :
  let e := decode_l7 r in
  (L7Event.Protocol e = "HTTP" /\
   In (L7Event.Method e)
      [ "GET"; "POST"; "PUT"; "PATCH"; "DELETE"; "HEAD"; "CONNECT"; "OPTIONS";
        "TRACE"; "Unknown" ]) \/
  (L7Event.Protocol e = "AMQP" /\
   In (L7Event.Method e) [ "PUBLISH"; "DELIVER"; "Unknown" ]) \/
  (L7Event.Protocol e = "POSTGRES" /\
   In (L7Event.Method e) [ "CLOSE_OR_TERMINATE"; "SIMPLE_QUERY"; "Unknown" ]) \/
  ((L7Event.Protocol e = "UNKNOWN" \/ L7Event.Protocol e = "Unknown") /\
   L7Event.Method e = "Unknown").
Proof.
  cbv zeta. cbn [L7Event.Protocol L7Event.Method decode_l7].
  rewrite decode_method_by_protocol. unfold decode_protocol. cbv zeta.
  set (p := bpfL7Event.Protocol r). set (m := bpfL7Event.Method r).
  destruct (Z.eq_dec p 0) as [E|N0]; [rewrite E; right; right; right; cbn; tauto|].
  destruct (Z.eq_dec p 1) as [E|N1].
  { rewrite E. left. split; [reflexivity|]. cbn [Z.eqb Pos.eqb].
    rewrite http_string_table.
    exact (string_of_table_in
             [ (1, "GET"); (2, "POST"); (3, "PUT"); (4, "PATCH"); (5, "DELETE");
               (6, "HEAD"); (7, "CONNECT"); (8, "OPTIONS"); (9, "TRACE") ] m). }
  destruct (Z.eq_dec p 2) as [E|N2].
  { rewrite E. right; left. split; [reflexivity|]. cbn [Z.eqb Pos.eqb].
    rewrite amqp_string_table.
    exact (string_of_table_in [ (1, "PUBLISH"); (2, "DELIVER") ] m). }
  destruct (Z.eq_dec p 3) as [E|N3].
  { rewrite E. right; right; left. split; [reflexivity|]. cbn [Z.eqb Pos.eqb].
    rewrite postgres_string_table.
    exact (string_of_table_in [ (1, "CLOSE_OR_TERMINATE"); (2, "SIMPLE_QUERY") ] m). }
  rewrite (protocol_string_default p N0 N1 N2 N3).
  apply Z.eqb_neq in N1, N2, N3. rewrite N1, N2, N3.
  right; right; right. split; [right|]; reflexivity.
Qed.

(** X4: a record with protocol discriminant 2 decodes to protocol "AMQP"
    and to the method 1 PUBLISH, 2 DELIVER, else "Unknown"; a record with
    discriminant 3 decodes to "POSTGRES" and to 1 CLOSE_OR_TERMINATE,
    2 SIMPLE_QUERY, else "Unknown". *)
Theorem amqp_postgres_record_decoding (r : bpfL7Event.t) :
  (bpfL7Event.Protocol r = 2 ->
   L7Event.Protocol (decode_l7 r) = "AMQP" /\
   L7Event.Method (decode_l7 r) =
     string_of_table [ (1, "PUBLISH"); (2, "DELIVER") ] (bpfL7Event.Method r)) /\
  (bpfL7Event.Protocol r = 3 ->
   L7Event.Protocol (decode_l7 r) = "POSTGRES" /\
   L7Event.Method (decode_l7 r) =
     string_of_table [ (1, "CLOSE_OR_TERMINATE"); (2, "SIMPLE_QUERY") ]
                     (bpfL7Event.Method r)).
Proof.
  cbn [L7Event.Protocol L7Event.Method decode_l7].
  rewrite decode_method_by_protocol. unfold decode_protocol. cbv zeta.
  split; intros ->; cbn [Z.eqb Pos.eqb]; (split; [reflexivity|]).
  - apply amqp_string_table.
  - apply postgres_string_table.
Qed.

Lemma amqp_postgres_record_decoding_witness :
  L7Event.Protocol (decode_l7 amqp_publish_tls_record) = "AMQP" /\
  L7Event.Method (decode_l7 amqp_publish_tls_record) = "PUBLISH".
Proof.
  exact (proj1 (amqp_postgres_record_decoding amqp_publish_tls_record) eq_refl).
Defined.

Lemma when_ch (b : bool) (e : Entry) (h : Host) : ch (when b (emit e) h) = ch h.
Proof. now destruct b. Qed.

Lemma when_log (b : bool) (e : Entry) (h : Host) :
  host_log (when b (emit e) h) = host_log h ++ (if b then [e] else []).
Proof. destruct b; cbn; [reflexivity | now rewrite app_nil_r]. Qed.


(** X6: the L7 pump writes warnings only for read errors and otherwise
    only debug entries; a record without the TLS flag, read without error
    and without lost samples, leaves the host log untouched. *)
Theorem l7_read_log_levels (err : bool) (record : perfRecord bpfL7Event.t) (h : Host) :
  (forall e, In e (host_log (l7_read err record h)) ->
     In e (host_log h) \/ level e = DebugLevel \/
     (level e = WarnLevel /\ err = true)) /\
  (forall l7Event,
     err = false -> LostSamples record = 0 -> RawSample record = Some l7Event ->
     bpfL7Event.IsTls l7Event = 0 ->
     host_log (l7_read err record h) = host_log h).
Proof.
  split.
  - intros e. unfold l7_read, l7_handle.
    destruct (RawSample record) as [r|]; cbn [send emit host_log];
      rewrite ?when_log; rewrite ?in_app_iff;
      destruct err, (negb (LostSamples record =? 0));
      try destruct (uint8ToBool (bpfL7Event.IsTls r)); cbn;
      intuition (subst; auto).
  - intros r -> Hl Hs Ht. unfold l7_read, l7_handle. rewrite Hs, Hl, Ht. reflexivity.
Qed.

Lemma l7_read_log_levels_witness :
  host_log (l7_read false (mkRecord (Some http_get_record) 0) empty_host) = [].
Proof.
  exact (proj2 (l7_read_log_levels false (mkRecord (Some http_get_record) 0) empty_host)
           http_get_record eq_refl eq_refl eq_refl eq_refl).
Defined.

(** X7: for a record with is_tls true the debug entry and the event sent
    on the channel name the same method and the same protocol, and the
    entry's fd equals the event's fd exactly when that fd is below 2^16. *)
Theorem tls_entry_agrees_with_event (r : bpfL7Event.t) (h : Host)
    (H : uint8ToBool (bpfL7Event.IsTls r) = true)
    (Hfd : 0 <= bpfL7Event.Fd r) :
  exists e ev,
    host_log (l7_handle r h) = host_log h ++ [e] /\
    ch (l7_handle r h) = ch h ++ [ev] /\
    str_field "method" (fields e) = Some (L7Event.Method ev) /\
    str_field "protocol" (fields e) = Some (L7Event.Protocol ev) /\
    (uint16_field "fd" (fields e) = Some (L7Event.Fd ev)
     <-> L7Event.Fd ev < 2 ^ 16).
Proof.
  exists (l7tls_entry r), (decode_l7 r).
  rewrite (l7_handle_tls r h H). cbn [host_log ch].
  repeat (split; [reflexivity|]).
  cbn [l7tls_entry fields uint16_field String.eqb Ascii.eqb Bool.eqb
       L7Event.Fd decode_l7].
  unfold uint16. split.
  - intros E. injection E as E.
    pose proof (Z.mod_pos_bound (bpfL7Event.Fd r) (2 ^ 16)). lia.
  - intros E. now rewrite Z.mod_small by lia.
Qed.

Lemma tls_entry_agrees_with_event_witness :
  exists e ev,
    host_log (l7_handle amqp_publish_tls_record empty_host) = [e] /\
    ch (l7_handle amqp_publish_tls_record empty_host) = [ev] /\
    str_field "method" (fields e) = Some "PUBLISH" /\
    L7Event.Method ev = "PUBLISH" /\
    uint16_field "fd" (fields e) = Some 12.
Proof.
  assert (Hfd : 0 <= bpfL7Event.Fd amqp_publish_tls_record) by (cbn; lia).
  destruct (tls_entry_agrees_with_event amqp_publish_tls_record empty_host eq_refl Hfd)
    as (e & ev & Hl & Hc & Hm & _ & Hf).
  exists e, ev. cbn [host_log ch empty_host app] in Hl, Hc.
  injection Hc as <-. split; [exact Hl|]. split; [reflexivity|].
  split; [exact Hm|]. split; [reflexivity|].
  apply Hf. cbn. lia.
Defined.

(* ================================================================= *)
(** ** More on the log pump *)

Lemma host_level_not_fatal (lvl : Z) (l : Level) :
  host_level lvl = Some l -> is_fatal (mkEntry l [] (Msg "")) = false.
Proof.
  unfold host_level. intros H.
  destruct lvl as [|[[q|q|]|[q|q|]|]|q]; inversion H; reflexivity.
Qed.

(** What one record adds: at most two entries, none of them fatal, and
    nothing on the channel. *)
Lemma log_handle_entries (logMsg : bpfLogMessage.t) (h : Host) :
  exists es,
    log_handle logMsg h = mkHost (host_log h ++ es) (ch h) /\
    (List.length es <= 2)%nat /\
    forall e, In e es -> level e <> FatalLevel.
Proof.
  rewrite log_handle_cut. cbv zeta.
  assert (W : forall fmt,
    exists es,
      emit (warnf "invalid ebpf log message: %s" (bpfLogMessage.LogMsg logMsg))
           (emit (warnf fmt (trimmed (bpfLogMessage.LogMsg logMsg))) h)
      = mkHost (host_log h ++ es) (ch h) /\
      (List.length es <= 2)%nat /\ forall e, In e es -> level e <> FatalLevel).
  { intros fmt. eexists. split.
    - unfold emit. cbn [host_log ch]. rewrite <- app_assoc. reflexivity.
    - split; [cbn; lia|]. cbn. intros e [<-|[<-|[]]]; discriminate. }
  destruct (Index _ sep_dashes); [|apply W].
  destruct (cut_message _) as [[[[body n1] n2] n3]|]; [|apply W].
  destruct (host_level _) as [l|] eqn:E.
  - eexists. split; [reflexivity|]. split; [cbn; lia|].
    cbn. intros e [<-|[]]. cbn. apply host_level_not_fatal in E.
    unfold is_fatal in E. cbn in E. destruct l; discriminate.
  - exists []. split; [destruct h; cbn; now rewrite app_nil_r|].
    split; [cbn; lia | intros e []].
Qed.

(** X8: one iteration of the log pump never sends on the channel, adds at
    most four host log entries, and none of them at the fatal level. *)
Theorem logs_read_keeps_channel (err : bool) (record : perfRecord bpfLogMessage.t)
    (h : Host) :
  ch (logs_read err record h) = ch h /\
  exists es,
    host_log (logs_read err record h) = host_log h ++ es /\
    (List.length es <= 4)%nat /\
    forall e, In e es -> level e <> FatalLevel.
Proof.
  unfold logs_read.
  set (h1 := when err _ h). set (h2 := when _ _ h1).
  assert (C2 : ch h2 = ch h) by (unfold h2, h1; now rewrite !when_ch).
  assert (L2 : exists es0, host_log h2 = host_log h ++ es0 /\
                 (List.length es0 <= 2)%nat /\
                 forall e, In e es0 -> level e <> FatalLevel).
  { unfold h2, h1. rewrite !when_log, <- app_assoc. eexists.
    split; [reflexivity|].
    destruct err, (negb (LostSamples record =? 0)); cbn;
      (split; [lia|]); intros e He;
      repeat (destruct He as [<-|He]; [discriminate|]); contradiction. }
  destruct L2 as (es0 & L2 & Hn & Hf).
  destruct (RawSample record) as [logMsg|].
  - destruct (log_handle_entries logMsg h2) as (es & -> & Hn' & Hf').
    cbn [ch host_log]. split; [exact C2|].
    exists (es0 ++ es). rewrite L2, <- app_assoc. split; [reflexivity|].
    rewrite length_app. split; [lia|].
    intros e He. apply in_app_or in He. destruct He; auto.
  - cbn [emit ch host_log]. split; [exact C2|].
    eexists. rewrite L2, <- app_assoc. split; [reflexivity|].
    rewrite length_app. cbn. split; [lia|].
    intros e He. apply in_app_or in He. destruct He as [He|[<-|[]]];
      [auto | discriminate].
Qed.











(** X12: [parseLogMessage] either returns a body, having written nothing
    to the log and having set the three argument values to arg1, arg2,
    arg3, or returns nil, having left the arguments as they were and
    written exactly one WARN entry that quotes its input. *)
Theorem parseLogMessage_effects (input : list byte) (logMsg : bpfLogMessage.t)
    (a b c : arg) (h : Host) :
  match parseLogMessage input logMsg [a; b; c] h with
  | (Some _, args, h') =>
      h' = h /\
      map argValue args =
        [ bpfLogMessage.Arg1 logMsg; bpfLogMessage.Arg2 logMsg;
          bpfLogMessage.Arg3 logMsg ]
  | (None, args, h') =>
      args = [a; b; c] /\ ch h' = ch h /\
      exists format,
        host_log h' =
          host_log h ++
          [ mkEntry WarnLevel [] (Msgf format [ArgStr (string_of_list_byte input)]) ]
  end.
Proof.
  rewrite parseLogMessage_cut.
  destruct (Index input sep_dashes) as [m|].
  - destruct (cut_message input) as [[[[body n1] n2] n3]|].
    + split; reflexivity.
    + split; [reflexivity|]. split; [reflexivity|]. eexists. reflexivity.
  - split; [reflexivity|]. split; [reflexivity|]. eexists. reflexivity.
Qed.

Lemma Join_cons (a : list byte) (parts : list (list byte)) (sep : list byte) :
  parts <> [] -> Join (a :: parts) sep = a ++ sep ++ Join parts sep.
Proof. destruct parts; [contradiction | reflexivity]. Qed.

Lemma splitLoop_not_nil (k : nat) (s sep : list byte) : splitLoop k s sep <> [].
Proof. destruct k; cbn; [|destruct (Index s sep)]; discriminate. Qed.

Lemma splitLoop_join (k : nat) (s sep : list byte) :
  Join (splitLoop k s sep) sep = s.
Proof.
  revert s. induction k as [|k IH]; intros s; [reflexivity|].
  cbn [splitLoop]. destruct (Index s sep) as [m|] eqn:E; [|reflexivity].
  rewrite Join_cons by apply splitLoop_not_nil.
  rewrite IH. symmetry. now apply Index_cut.
Qed.

Lemma splitLoop_length (k : nat) (s sep : list byte) :
  (1 <= List.length (splitLoop k s sep) <= S k)%nat.
Proof.
  revert s. induction k as [|k IH]; intros s; [cbn; lia|].
  cbn [splitLoop]. destruct (Index s sep) as [m|]; [|cbn; lia].
  cbn [List.length]. specialize (IH (skipn (m + List.length sep) s)). lia.
Qed.

(** X13: for a positive limit and a non-empty separator, [SplitN] returns
    between one and [n] pieces, and joining them with the separator gives
    the input back: the cuts lose no byte. *)
Theorem SplitN_join (s sep : list byte) (n : nat)
    (Hn : n <> 0%nat) (Hsep : sep <> []) :
  Join (SplitN s sep n) sep = s /\
  (1 <= List.length (SplitN s sep n) <= n)%nat.
Proof.
  unfold SplitN. destruct n as [|n]; [contradiction|].
  split; [apply splitLoop_join|].
  pose proof (splitLoop_length (Nat.min (S n) (List.length s + 1) - 1) s sep).
  lia.
Qed.

Lemma SplitN_join_witness :
  Join (SplitN (bytes "a|b|c|d") sep_bar 3) sep_bar = bytes "a|b|c|d" /\
  (1 <= List.length (SplitN (bytes "a|b|c|d") sep_bar 3) <= 3)%nat.
Proof.
  apply (SplitN_join (bytes "a|b|c|d") sep_bar 3); discriminate.
Defined.

(* ================================================================= *)
(** ** Startup, return and exit for every kernel *)

Lemma fatals_say (e : Entry) (p : Proc) :
  fatals (say e p) = (fatals p + if is_fatal e then 1 else 0)%nat.
Proof.
  unfold fatals, say. cbn [plog]. rewrite filter_app, length_app. cbn.
  destruct (is_fatal e); reflexivity.
Qed.

Lemma andThen_orderly (r : Run) (k : Proc -> Run) :
  orderly r ->
  (forall p, registered p -> fatals p = 0%nat -> orderly (k p)) ->
  orderly (r >>= k).
Proof.
  destruct r as [p|p]; cbn; intros [Hr Hf] Hk; [now apply Hk | now split].
Qed.

Lemma registered_acquire_defer (x : Resource) (p : Proc) :
  registered p -> registered (defer x (acquire x p)).
Proof.
  intros [Hd Hc]. split; cbn; [|exact Hc]. rewrite rev_app_distr. cbn.
  now rewrite Hd.
Qed.

Lemma attach_orderly (k : Kernel) (tp : Tracepoint) (p : Proc) :
  registered p -> fatals p = 0%nat -> orderly (attach k tp p).
Proof.
  intros Hr Hf. unfold attach. destruct (attach_ok k tp).
  - cbn. split.
    + destruct Hr as [Hd Hc]. split; cbn; [|exact Hc].
      rewrite rev_app_distr. cbn. now rewrite Hd.
    + unfold fatals, Info, say, defer, acquire in *. cbn [plog] in *.
      rewrite filter_app, length_app. cbn. lia.
  - unfold Fatal. cbn [orderly]. split.
    + destruct tp; exact Hr.
    + rewrite fatals_say. cbn [is_fatal level].
      destruct tp; rewrite ?fatals_say; cbn [is_fatal level]; lia.
Qed.

Lemma attach_all_orderly (k : Kernel) (tps : list Tracepoint) (p : Proc) :
  registered p -> fatals p = 0%nat -> orderly (attach_all k tps p).
Proof.
  revert p. induction tps as [|tp tps IH]; intros p Hr Hf; cbn.
  - now split.
  - apply andThen_orderly; [now apply attach_orderly | exact IH].
Qed.

Lemma new_reader_orderly (k : Kernel) (r : Ring) (p : Proc) :
  registered p -> fatals p = 0%nat -> orderly (new_reader k r p).
Proof.
  intros Hr Hf. unfold new_reader, Fatal. destruct (reader_ok k r); cbn [orderly].
  - split; [now apply registered_acquire_defer | exact Hf].
  - split; [exact Hr | rewrite fatals_say; cbn [is_fatal level]; lia].
Qed.

Lemma startup_orderly (k : Kernel) : orderly (startup k loaded).
Proof.
  unfold startup.
  repeat apply andThen_orderly;
    try (intros; first [ now apply new_reader_orderly
                       | now apply attach_all_orderly ]).
  cbn. split; [split|]; reflexivity.
Qed.

Lemma attach_all_running (k : Kernel) (tps : list Tracepoint) (p p' : Proc) :
  attach_all k tps p = Running p' ->
  held p' = held p ++ map Link tps /\ forall tp, In tp tps -> attach_ok k tp = true.
Proof.
  revert p. induction tps as [|tp tps IH]; intros p H; cbn in H.
  - injection H as <-. split; [now rewrite app_nil_r | intros tp []].
  - unfold attach in H. destruct (attach_ok k tp) eqn:E.
    + cbn [andThen] in H. apply IH in H. destruct H as [Hh Ha]. split.
      * rewrite Hh. cbn. now rewrite <- app_assoc.
      * intros t [<-|Ht]; [exact E | now apply Ha].
    + unfold Fatal in H. cbn in H. discriminate H.
Qed.

(** X14: if the startup of [DeployAndWait] gets through, every tracepoint
    was granted, the process holds the objects, the eight links in program
    order and the two readers, the close of each is deferred in reverse
    order of acquisition, and nothing has been closed. *)
Theorem startup_holds_all (k : Kernel) (p : Proc)
    (H : startup k loaded = Running p) :
  held p = Objects :: map Link tracepoints ++ [Reader L7Events; Reader LogMap] /\
  defers p = rev (held p) /\
  closed p = [] /\
  forall tp, attach_ok k tp = true.
Proof.
  pose proof (startup_orderly k) as O. rewrite H in O. destruct O as [[Hd Hc] _].
  split; [|split; [exact Hd|split; [exact Hc|]]].
  - unfold startup in H. cbn [andThen] in H.
    destruct (attach_all k tracepoints (defer Objects loaded)) as [p1|p1] eqn:E1;
      [|discriminate H].
    apply attach_all_running in E1. destruct E1 as [Hh _].
    cbn [andThen] in H. unfold new_reader in H.
    destruct (reader_ok k L7Events); [|discriminate H].
    cbn [andThen] in H. destruct (reader_ok k LogMap); [|discriminate H].
    injection H as <-. cbn [held defer acquire]. rewrite Hh. cbn.
    reflexivity.
  - unfold startup in H. cbn [andThen] in H.
    destruct (attach_all k tracepoints (defer Objects loaded)) as [p1|p1] eqn:E1;
      [|discriminate H].
    apply attach_all_running in E1. destruct E1 as [_ Ha].
    intros tp. apply Ha. destruct tp; cbn; tauto.
Qed.

Lemma startup_holds_all_witness :
  exists p,
    startup (refusing []) loaded = Running p /\
    held p = Objects :: map Link tracepoints ++ [Reader L7Events; Reader LogMap] /\
    defers p = rev (held p).
Proof.
  eexists. split; [reflexivity|].
  destruct (startup_holds_all (refusing []) _ eq_refl) as (Hh & Hd & _).
  split; [exact Hh | exact Hd].
Defined.












Lemma attach_refused_entry (k : Kernel) (tp : Tracepoint) (p : Proc) :
  attach_ok k tp = false ->
  exists p', attach k tp p = Exited p' /\
             held p' = held p /\
             last (plog p') (mkEntry DebugLevel [] (Msg ""))
             = mkEntry FatalLevel [Err]
                 (Msg ("link " ++ tracepoint_name tp ++ " tracepoint")).
Proof.
  intros H. unfold attach. rewrite H. unfold Fatal.
  eexists. split; [reflexivity|]. split; [destruct tp; reflexivity|].
  unfold say. cbn [plog]. apply last_last.
Qed.

Lemma attach_all_first_refused (k : Kernel) (pre post : list Tracepoint)
    (tp : Tracepoint) (p : Proc) :
  (forall t, In t pre -> attach_ok k t = true) ->
  attach_ok k tp = false ->
  exists p', attach_all k (pre ++ tp :: post) p = Exited p' /\
             held p' = held p ++ map Link pre /\
             last (plog p') (mkEntry DebugLevel [] (Msg ""))
             = mkEntry FatalLevel [Err]
                 (Msg ("link " ++ tracepoint_name tp ++ " tracepoint")).
Proof.
  revert p. induction pre as [|t pre IH]; intros p Hpre Htp.
  - destruct (attach_refused_entry k tp p Htp) as (p' & E & Hh & Hl).
    exists p'. cbn. rewrite E. cbn. rewrite app_nil_r. auto.
  - destruct (attach_ok_step k t p (Hpre t (or_introl eq_refl)))
      as (p1 & E & _ & Hh & _).
    destruct (IH p1 (fun x Hx => Hpre x (or_intror Hx)) Htp)
      as (p' & E' & Hh' & Hl').
    exists p'. cbn [app attach_all]. rewrite E. cbn [andThen].
    split; [exact E'|]. split; [|exact Hl'].
    rewrite Hh', Hh, <- app_assoc. reflexivity.
Qed.

(** X18: attachment stops at the first refusal.  If the tracepoints before
    [tp] in program order are granted and [tp] is refused, the process
    exits holding the objects and exactly the links before [tp], no later
    tracepoint having been tried, and the last entry it wrote is the fatal
    one naming [tp]. *)
Theorem first_refusal_stops_startup (k : Kernel) (pre post : list Tracepoint)
    (tp : Tracepoint)
    (Hsplit : tracepoints = pre ++ tp :: post)
    (Hpre : forall t, In t pre -> attach_ok k t = true)
    (Htp : attach_ok k tp = false) :
  exists p,
    DeployAndWait k loaded = Exited p /\
    held p = Objects :: map Link pre /\
    last (plog p) (mkEntry DebugLevel [] (Msg ""))
    = mkEntry FatalLevel [Err] (Msg ("link " ++ tracepoint_name tp ++ " tracepoint")).
Proof.
  unfold DeployAndWait. rewrite Hsplit.
  destruct (attach_all_first_refused k pre post tp (defer Objects loaded) Hpre Htp)
    as (p & E & Hh & Hl).
  exists p. cbn [andThen]. rewrite E. cbn [andThen]. auto.
Qed.

Lemma first_refusal_stops_startup_witness :
  exists p,
    DeployAndWait (refusing [sys_exit_read; sys_exit_write]) loaded = Exited p /\
    held p = [Objects; Link sys_enter_read; Link sys_enter_write] /\
    last (plog p) (mkEntry DebugLevel [] (Msg ""))
    = mkEntry FatalLevel [Err] (Msg "link sys_exit_read tracepoint").
Proof.
  apply (first_refusal_stops_startup (refusing [sys_exit_read; sys_exit_write])
           [sys_enter_read; sys_enter_write]
           [sys_enter_sendto; sys_enter_recvfrom; sys_exit_recvfrom;
            sys_exit_sendto; sys_exit_write]
           sys_exit_read).
  - reflexivity.
  - intros t [<-|[<-|[]]]; reflexivity.
  - reflexivity.
Defined.
